(** * Claro service monitor: configuration resolver and response validator

    A shallow embedding of the decision logic of the monitor:
    - [src/services/rest/index.ts]: the four matching strategies and
      [validateRestResponse];
    - [src/services/soap/index.ts]: [validateSoapResponse];
    - [src/config/index.ts]: [processEnvironmentVariables];
    - [src/services/index.ts]: [checkAllServices].

    JavaScript values are modelled by the inductive [value]; an exception
    is an explicit [Throw] outcome of the [Result] type.  An object lists
    its own enumerable properties in [Object.keys] order, and a list stands
    for an object when its keys are pairwise distinct.  Response payloads
    are arbitrary parsed JSON, so the two prototype effects that their keys
    can trigger are modelled: an own property [hasOwnProperty] shadows the
    method, and an assignment to the key [__proto__] of a fresh object adds
    no own property.  The disabled-services list is a parsed request
    parameter read by service id, so a read of it that misses every own
    entry falls back on [Object.prototype].  Names of environment variables
    and headers chosen by the catalog author are taken to be ordinary
    property names, not members of [Object.prototype]. *)

From Stdlib Require Import ZArith Lia.
From stdpp Require Import base strings list gmap sorting.

Local Open Scope string_scope.

(** ** JavaScript values *)

Unset Elimination Schemes.
Inductive value : Type :=
| JUndefined
| JNull
| JBool (b : bool)
| JNum (n : Z)
| JStr (s : string)
| JArr (items : list value)
| JObj (entries : list (string * value)).
Set Elimination Schemes.

(** Numbers are carried as integers: the code below inspects a number only
    through [typeof], truthiness and [===]. *)

Inductive JsError : Type :=
| TypeError
| Error (message : string).

Inductive Result (A : Type) : Type :=
| Ok (a : A)
| Throw (e : JsError).
Arguments Ok {A} a.
Arguments Throw {A} e.

Definition bind {A B} (m : Result A) (f : A → Result B) : Result B :=
  match m with
  | Ok a => f a
  | Throw e => Throw e
  end.

Notation "'let*' x ':=' m 'in' f" := (bind m (fun x => f))
  (at level 10, x name, m at level 100, f at level 200).

(** [try { m } catch (error) { handler }] *)
Definition try_catch {A} (m : Result A) (handler : JsError → Result A) : Result A :=
  match m with
  | Ok a => Ok a
  | Throw e => handler e
  end.

Definition typeof (v : value) : string :=
  match v with
  | JUndefined => "undefined"
  | JNull => "object"
  | JBool _ => "boolean"
  | JNum _ => "number"
  | JStr _ => "string"
  | JArr _ => "object"
  | JObj _ => "object"
  end.

Definition isArray (v : value) : bool :=
  match v with JArr _ => true | _ => false end.

Definition is_null (v : value) : bool :=
  match v with JNull => true | _ => false end.

Definition is_undefined (v : value) : bool :=
  match v with JUndefined => true | _ => false end.

(** ToBoolean *)
Definition truthy (v : value) : bool :=
  match v with
  | JUndefined | JNull => false
  | JBool b => b
  | JNum n => negb (n =? 0)%Z
  | JStr s => negb (String.eqb s "")
  | JArr _ | JObj _ => true
  end.

(** [a === b] when one side is a primitive, [null] or [undefined];
    two objects or arrays are never the same reference here, since the
    response and the expectation are parsed separately. *)
Definition strict_eq (a b : value) : bool :=
  match a, b with
  | JUndefined, JUndefined => true
  | JNull, JNull => true
  | JBool x, JBool y => Bool.eqb x y
  | JNum x, JNum y => (x =? y)%Z
  | JStr x, JStr y => String.eqb x y
  | _, _ => false
  end.

(** [Object.keys(obj)] of an object *)
Definition keys (entries : list (string * value)) : list string :=
  map fst entries.

(** own-property read [obj[key]]; [undefined] when the key is absent *)
Fixpoint get (entries : list (string * value)) (key : string) : value :=
  match entries with
  | [] => JUndefined
  | (k, v) :: rest => if String.eqb k key then v else get rest key
  end.

(** [f(obj[key])], with the result [undef] of [f(undefined)] spelled out
    for an absent key *)
Definition at_key {B} (f : value → B) (undef : B) (key : string) :=
  fix go (entries : list (string * value)) : B :=
    match entries with
    | [] => undef
    | (k, v) :: rest => if String.eqb k key then f v else go rest
    end.

Definition has_own (entries : list (string * value)) (key : string) : bool :=
  existsb (String.eqb key) (keys entries).

(** [obj.hasOwnProperty(key)]: the method is found on [Object.prototype]
    unless the object has an own property of that name, whose value is then
    called; no value of the model is callable. *)
Definition hasOwnProperty (entries : list (string * value)) (key : string)
  : Result bool :=
  if has_own entries "hasOwnProperty" then Throw TypeError
  else Ok (has_own entries key).

(** [arr[index]] *)
Definition array_get (items : list value) (index : nat) : value :=
  nth index items JUndefined.

(** [Array.prototype.sort()] on strings, default comparator.  The code only
    compares two sorted key lists index by index, and every total order
    gives that comparison the same outcome. *)
Definition sort (l : list string) : list string := merge_sort String.le l.

(** [Array.prototype.every], callback [(item, index) => ...] *)
Definition every_i {A} (f : A → nat → bool) :=
  fix go (l : list A) (index : nat) : bool :=
    match l with
    | [] => true
    | item :: rest => if f item index then go rest (S index) else false
    end.

Definition every {A} (f : A → bool) (l : list A) : bool :=
  every_i (fun item _ => f item) l 0.

(** [every] with a callback that may throw: stops at the first [false] or
    the first exception *)
Definition every_r_i {A} (f : A → nat → Result bool) :=
  fix go (l : list A) (index : nat) : Result bool :=
    match l with
    | [] => Ok true
    | item :: rest =>
        match f item index with
        | Ok true => go rest (S index)
        | other => other
        end
    end.

Definition every_r {A} (f : A → Result bool) (l : list A) : Result bool :=
  every_r_i (fun item _ => f item) l 0.

(** [Array.prototype.some] with a callback that may throw *)
Definition some_r {A} (f : A → Result bool) :=
  fix go (l : list A) : Result bool :=
    match l with
    | [] => Ok false
    | item :: rest =>
        match f item with
        | Ok false => go rest
        | other => other
        end
    end.

(** ** The four matching strategies (rest/index.ts) *)

(** Strategy 1 *)
Fixpoint compareStructure (obj1 obj2 : value) {struct obj1} : bool :=
  if negb (String.eqb (typeof obj1) (typeof obj2)) then false
  else if is_null obj1 || is_null obj2 then strict_eq obj1 obj2
  else if negb (String.eqb (typeof obj1) "object") then true
  else if negb (Bool.eqb (isArray obj1) (isArray obj2)) then false
  else
    match obj1, obj2 with
    | JArr items1, JArr items2 =>
        if negb (List.length items1 =? List.length items2)%nat then false
        else every_i (fun item index =>
                        compareStructure item (array_get items2 index))
                     items1 0
    | JObj entries1, JObj entries2 =>
        let keys1 := sort (keys entries1) in
        let keys2 := sort (keys entries2) in
        if negb (List.length keys1 =? List.length keys2)%nat then false
        else if negb (every_i (fun key index =>
                                 String.eqb key (nth index keys2 ""))
                              keys1 0)
        then false
        else every (fun key =>
                      at_key (fun v1 => compareStructure v1 (get entries2 key))
                             (is_undefined (get entries2 key))
                             key entries1)
                   keys1
    | _, _ => false
    end.

(** Strategy 2 *)

(** The object [{type, items, properties, required}] built by
    [generateSchema].  [SType t] is [{ type: t }] for a [t] other than
    ['null'], ['array'] and ['object']: a [typeof] result or ['any']. *)
Unset Elimination Schemes.
Inductive Schema : Type :=
| SNull                                      (* { type: 'null' } *)
| SArray (items : Schema)                    (* { type: 'array', items } *)
| SObject (properties : list (string * Schema)) (required : list string)
| SType (type : string).                     (* { type: typeof obj }, { type: 'any' } *)
Set Elimination Schemes.

(** [obj[key] = x] on a plain object: an existing own property is
    overwritten in place, a new one is added last; the key [__proto__]
    reaches the prototype setter and adds no own property. *)
Fixpoint assign {B} (entries : list (string * B)) (key : string) (x : B)
  : list (string * B) :=
  match entries with
  | [] => [(key, x)]
  | (k, y) :: rest =>
      if String.eqb k key then (k, x) :: rest else (k, y) :: assign rest key x
  end.

Definition set_property {B} (entries : list (string * B)) (key : string) (x : B)
  : list (string * B) :=
  if String.eqb key "__proto__" then entries else assign entries key x.

(** own-property read of a table, [None] for [undefined] *)
Fixpoint lookup_own {B} (entries : list (string * B)) (key : string) : option B :=
  match entries with
  | [] => None
  | (k, x) :: rest => if String.eqb k key then Some x else lookup_own rest key
  end.

Fixpoint generateSchema (obj : value) : Schema :=
  match obj with
  | JNull => SNull
  | JArr items =>
      SArray (match items with
              | item0 :: _ => generateSchema item0
              | [] => SType "any"
              end)
  | JObj entries =>
      let properties :=
        fold_left (fun properties key =>
                     set_property properties key
                       (at_key generateSchema (SType "undefined") key entries))
                  (keys entries) [] in
      SObject properties (keys entries)
  | _ => SType (typeof obj)
  end.

(** [validateSchema(undefined, schema)] *)
Definition validate_undefined (schema : Schema) : Result bool :=
  match schema with
  | SType type => Ok (String.eqb "undefined" type)
  | _ => Ok false
  end.

(** In the last [every], [schema.properties[key]] is read for the keys of
    the actual object.  A key that is no own property of
    [schema.properties] yields [undefined] or a member of
    [Object.prototype], for which the callback is falsy either way: a
    prototype member has no [type], so no value validates against it. *)
Fixpoint validateSchema (obj : value) (schema : Schema) {struct obj} : Result bool :=
  match schema with
  | SNull => Ok (is_null obj)
  | SArray items =>
      match obj with
      | JArr elements => every_r (fun item => validateSchema item items) elements
      | _ => Ok false
      end
  | SObject properties required =>
      match obj with
      | JObj entries =>
          let requiredKeys := required in
          let* present := every_r (fun key => hasOwnProperty entries key) requiredKeys in
          if negb present then Ok false
          else
            let objKeys := keys entries in
            let schemaKeys := map fst properties in
            if negb (List.length objKeys =? List.length schemaKeys)%nat then Ok false
            else every_r (fun key =>
                            match lookup_own properties key with
                            | Some sub =>
                                at_key (fun v => validateSchema v sub)
                                       (validate_undefined sub) key entries
                            | None => Ok false
                            end)
                         objKeys
      | _ => Ok false
      end
  | SType type => Ok (String.eqb (typeof obj) type)
  end.

(** Strategy 3 *)
Fixpoint createPattern (obj : value) : value :=
  match obj with
  | JNull => JNull
  | JArr items => JArr (map (fun _ => JStr "*") items)
  | JObj entries =>
      JObj (fold_left (fun pattern key =>
                         set_property pattern key
                           (at_key createPattern (JStr "*") key entries))
                      (keys entries) [])
  | _ => JStr "*"
  end.

(** [matchesPattern(undefined, pattern)] *)
Definition matches_undefined (pattern : value) : bool :=
  if strict_eq pattern (JStr "*") then true else strict_eq JUndefined pattern.

Fixpoint matchesPattern (obj pattern : value) {struct obj} : bool :=
  if strict_eq pattern (JStr "*") then true
  else if is_null pattern then is_null obj
  else
    match pattern with
    | JArr patterns =>
        match obj with
        | JArr items =>
            if negb (List.length items =? List.length patterns)%nat then false
            else every_i (fun item index =>
                            matchesPattern item (array_get patterns index))
                         items 0
        | _ => false
        end
    | JObj patternEntries =>
        match obj with
        | JObj entries =>
            let patternKeys := sort (keys patternEntries) in
            let objKeys := sort (keys entries) in
            if negb (List.length patternKeys =? List.length objKeys)%nat then false
            else if negb (every_i (fun key index =>
                                     String.eqb key (nth index objKeys ""))
                                  patternKeys 0)
            then false
            else every (fun key =>
                          at_key (fun v => matchesPattern v (get patternEntries key))
                                 (matches_undefined (get patternEntries key))
                                 key entries)
                       patternKeys
        | _ => false
        end
    | _ => strict_eq obj pattern
    end.

(** Strategy 4 *)
Record FlexibleOptions : Type := {
  ignoreArrayOrder : bool;
  allowExtraFields : bool;
  typeStrict : bool
}.

(** the defaults of the destructuring [{ ignoreArrayOrder = false,
    allowExtraFields = false, typeStrict = true } = options] *)
Definition default_options : FlexibleOptions :=
  {| ignoreArrayOrder := false; allowExtraFields := false; typeStrict := true |}.

Section compareFlexible.
Variable options : FlexibleOptions.

(** the last lines of [compare], reached with a primitive [expected] *)
Definition compare_primitive (actual expected : value) : bool :=
  if typeStrict options then String.eqb (typeof actual) (typeof expected)
  else true.

(** [compare(actual, undefined)] *)
Definition compare_undefined (actual : value) : Result bool :=
  if is_null actual then Ok false
  else Ok (compare_primitive actual JUndefined).

Fixpoint compare (actual expected : value) {struct expected} : Result bool :=
  if is_null expected then Ok (is_null actual)
  else if is_null actual then Ok false
  else
    match expected with
    | JArr expectedItems =>
        match actual with
        | JArr actualItems =>
            if ignoreArrayOrder options then
              if negb (List.length expectedItems =? List.length actualItems)%nat
              then Ok false
              else every_r (fun expectedItem =>
                              some_r (fun actualItem => compare actualItem expectedItem)
                                     actualItems)
                           expectedItems
            else
              if negb (List.length expectedItems =? List.length actualItems)%nat
              then Ok false
              else every_r_i (fun expectedItem index =>
                                compare (array_get actualItems index) expectedItem)
                             expectedItems 0
        | _ => Ok false
        end
    | JObj expectedEntries =>
        match actual with
        | JObj actualEntries =>
            let expectedKeys := keys expectedEntries in
            let actualKeys := keys actualEntries in
            if negb (allowExtraFields options)
               && negb (List.length expectedKeys =? List.length actualKeys)%nat
            then Ok false
            else every_r (fun key =>
                            let* own := hasOwnProperty actualEntries key in
                            if negb own then Ok false
                            else at_key (fun e => compare (get actualEntries key) e)
                                        (compare_undefined (get actualEntries key))
                                        key expectedEntries)
                         expectedKeys
        | _ => Ok false
        end
    | _ => Ok (compare_primitive actual expected)
    end.
End compareFlexible.

Definition compareFlexible (response expected : value) (options : FlexibleOptions)
  : Result bool :=
  compare options response expected.

(** ** Service descriptors (types/index.ts) *)

Inductive ServiceType : Type := REST | SOAP.

Inductive EnvironmentType : Type := DEV | QA | SIT | UAT | PROD.

Definition environment_name (e : EnvironmentType) : string :=
  match e with
  | DEV => "DEV" | QA => "QA" | SIT => "SIT" | UAT => "UAT" | PROD => "PROD"
  end.

Definition EnvironmentType_eqb (a b : EnvironmentType) : bool :=
  String.eqb (environment_name a) (environment_name b).

(** [string | string[]], the value of a [headerEnvVars] entry *)
Inductive EnvVarNames : Type :=
| VarName (name : string)
| VarNames (names : list string).

(** One record carries the fields of [BaseService] and those of
    [RestService] and [SoapService] that the code below reads.  An optional
    field is an [option]; [expectedContent] is [JUndefined] when it is not
    declared (the REST validator reads it as an arbitrary JSON value).
    [environmentUrls], a [Partial<Record<EnvironmentType, string>>], is a
    lookup table over the five environments. *)
Record Service : Type := {
  id : string;
  name : string;
  type : ServiceType;
  enabled : option bool;
  url : option string;
  baseUrl : option string;
  path : option string;
  urlEnvVar : option string;
  baseUrlEnvVar : option string;
  environmentUrls : option (EnvironmentType → option string);
  headers : option (gmap string string);
  headerEnvVars : option (list (string * EnvVarNames));
  expectedContent : value;
  environment : option EnvironmentType;
  expectedStatus : option Z
}.

(** truthiness of an optional string: declared and not empty *)
Definition truthy_string (s : option string) : bool :=
  match s with
  | Some x => negb (String.eqb x "")
  | None => false
  end.

(** truthiness of an optional number *)
Definition truthy_number (n : option Z) : bool :=
  match n with
  | Some x => negb (x =? 0)%Z
  | None => false
  end.

(** ** REST response validation (rest/index.ts) *)

Record AxiosResponse : Type := {
  status : Z;
  data : value
}.

(** property access on [response], which is [undefined] when the request
    was skipped *)
Definition deref {A} (response : option A) : Result A :=
  match response with
  | Some r => Ok r
  | None => Throw TypeError
  end.

(** [console.log(label, Object.keys(v))]: [Object.keys] throws on [null] and
    [undefined]; what is printed is not modelled. *)
Definition log_Object_keys (v : value) : Result unit :=
  match v with
  | JUndefined | JNull => Throw TypeError
  | _ => Ok tt
  end.

(** the options passed by [validateRestResponse]:
    [{ typeStrict: false, allowExtraFields: false }], [ignoreArrayOrder]
    taking its default *)
Definition rest_options : FlexibleOptions :=
  {| ignoreArrayOrder := ignoreArrayOrder default_options;
     allowExtraFields := false;
     typeStrict := false |}.

(** the body of the [try] block *)
Definition run_strategies (service : Service) (response : option AxiosResponse)
  : Result bool :=
  let* r := deref response in
  let responseData := data r in
  let expectedStructure := expectedContent service in
  if compareStructure responseData expectedStructure then Ok true
  else
    let schema := generateSchema expectedStructure in
    let* valid := validateSchema responseData schema in
    if valid then Ok true
    else
      let pattern := createPattern expectedStructure in
      if matchesPattern responseData pattern then Ok true
      else
        let* flexible :=
          compareFlexible responseData expectedStructure rest_options in
        if flexible then Ok true
        else
          let* _ := log_Object_keys responseData in
          let* _ := log_Object_keys expectedStructure in
          Ok false.

Definition validateRestResponse (service : Service) (response : option AxiosResponse)
  : Result bool :=
  let* mismatch :=
    if truthy_number (expectedStatus service) then
      let* r := deref response in
      Ok (negb (bool_decide (Some (status r) = expectedStatus service)))
    else Ok false in
  if mismatch then Ok false
  else if negb (truthy (expectedContent service)) then Ok true
  else try_catch (run_strategies service response) (fun error => Ok false).

(** ** String helpers *)

(** [s.startsWith(p)] *)
Definition startsWith (s p : string) : bool := String.prefix p s.

(** [s.includes(sub)] *)
Fixpoint includes (s sub : string) : bool :=
  if String.prefix sub s then true
  else match s with
       | EmptyString => false
       | String _ rest => includes rest sub
       end.

(** [s.endsWith(suffix)] *)
Fixpoint endsWith (s suffix : string) : bool :=
  if String.eqb s suffix then true
  else match s with
       | EmptyString => false
       | String _ rest => endsWith rest suffix
       end.

(** [s.slice(0, -1)] *)
Fixpoint slice_0_m1 (s : string) : string :=
  match s with
  | EmptyString => EmptyString
  | String c rest =>
      match rest with
      | EmptyString => EmptyString
      | String _ _ => String c (slice_0_m1 rest)
      end
  end.

(** [s.slice(1)] *)
Definition slice_1 (s : string) : string :=
  match s with
  | EmptyString => EmptyString
  | String _ rest => rest
  end.

(** [String(a)] of an array of strings, as used when an array is a
    property key *)
Definition join_comma (names : list string) : string := String.concat "," names.

(** ** SOAP response validation (soap/index.ts) *)

(** [response.key] for a key that is neither an array index, [length] nor
    a member of a prototype: a [TypeError] on [null] and [undefined], the
    own property of an object, [undefined] on any other value. *)
Definition get_property (v : value) (key : string) : Result value :=
  match v with
  | JUndefined | JNull => Throw TypeError
  | JObj entries => Ok (get entries key)
  | _ => Ok JUndefined
  end.

Section soap.
(** [JSON.stringify] on a value other than [undefined], and the string
    coercion that [includes] applies to its argument *)
Variable JSON_stringify : value → string.
Variable ToString : value → string.

(** [JSON.stringify(response)] is [undefined] for an [undefined] response,
    and reading [includes] from it is a [TypeError]. *)
Definition stringify_response (response : value) : Result string :=
  match response with
  | JUndefined => Throw TypeError
  | _ => Ok (JSON_stringify response)
  end.

Definition validateSoapResponse (service : Service) (response : value)
  : Result bool :=
  let* missing :=
    if truthy (expectedContent service) then
      let* responseStr := stringify_response response in
      Ok (negb (includes responseStr (ToString (expectedContent service))))
    else Ok false in
  if missing then Ok false
  else
    let* Fault := get_property response "Fault" in
    let* indicator :=
      if truthy Fault then Ok Fault
      else
        let* fault := get_property response "fault" in
        if truthy fault then Ok fault
        else
          let* error := get_property response "error" in
          if truthy error then Ok error
          else get_property response "Error" in
    if truthy indicator then Ok false else Ok true.
End soap.

(** ** Configuration resolver (config/index.ts) *)

Section config.
(** the environment variables, [process.env] *)
Variable process_env : gmap string string.

(** [process.env[name]] is truthy: the variable is set and not empty *)
Definition env_set (name : string) : bool := truthy_string (process_env !! name).

(** [process.env[name] as string] *)
Definition env_value (name : string) : string := default "" (process_env !! name).

(** [process.env.ENVIRONMENT as EnvironmentType]: the cast asserts that a
    set variable holds one of the five names. *)
Definition env_ENVIRONMENT : option EnvironmentType :=
  if env_set "ENVIRONMENT" then
    List.find (fun e => String.eqb (environment_name e) (env_value "ENVIRONMENT"))
              [DEV; QA; SIT; UAT; PROD]
  else None.

Section service.
Variable currentEnvironment : EnvironmentType.

(** the predicate of [services.filter] *)
Definition included (service : Service) : bool :=
  let hasEnvironmentUrl :=
    match environmentUrls service with
    | Some urls => bool_decide (is_Some (urls currentEnvironment))
    | None => false
    end in
  (hasEnvironmentUrl
   || match environment service with None => true | Some _ => false end
   || match environment service with
      | Some e => EnvironmentType_eqb e currentEnvironment
      | None => false
      end)
  && negb (bool_decide (enabled service = Some false)).

(** [service.environmentUrls && service.environmentUrls[currentEnvironment]] *)
Definition environmentUrl (service : Service) : option string :=
  match environmentUrls service with
  | Some urls => urls currentEnvironment
  | None => None
  end.

(** [`${base}/${path}`] after removing one trailing slash of the base
    and one leading slash of the path *)
Definition join_url (base path : string) : string :=
  let base := if endsWith base "/" then slice_0_m1 base else base in
  let path := if startsWith path "/" then slice_1 path else path in
  base ++ "/" ++ path.

(** [processedService.url] after the three URL rules *)
Definition resolveUrl (service : Service) : option string :=
  if truthy_string (environmentUrl service) then
    let envUrlValue := default "" (environmentUrl service) in
    let url := if env_set envUrlValue then env_value envUrlValue else envUrlValue in
    if truthy_string (path service) then
      Some (join_url url (default "" (path service)))
    else if negb (String.eqb url "") then Some url
    else if truthy_string (path service) then path service
    else Some url
  else if truthy_string (urlEnvVar service)
          && env_set (default "" (urlEnvVar service)) then
    Some (env_value (default "" (urlEnvVar service)))
  else if truthy_string (baseUrl service) || truthy_string (path service) then
    let baseUrl0 := if truthy_string (baseUrl service)
                    then default "" (baseUrl service) else "" in
    let baseUrl1 :=
      if truthy_string (baseUrlEnvVar service)
         && env_set (default "" (baseUrlEnvVar service))
      then env_value (default "" (baseUrlEnvVar service))
      else baseUrl0 in
    if negb (String.eqb baseUrl1 "") && truthy_string (path service) then
      Some (join_url baseUrl1 (default "" (path service)))
    else if negb (String.eqb baseUrl1 "") then Some baseUrl1
    else if truthy_string (path service) then path service
    else url service
  else url service.

(** a [headerEnvVars] value used as a property key of [process.env] *)
Definition property_key (n : EnvVarNames) : string :=
  match n with
  | VarName name => name
  | VarNames names => join_comma names
  end.

Definition truthy_names (n : option EnvVarNames) : bool :=
  match n with
  | Some (VarName name) => negb (String.eqb name "")
  | Some (VarNames _) => true
  | None => false
  end.

Definition envSpecificHeaderKey : string :=
  "NAME_API_KEY_" ++ environment_name currentEnvironment.

Definition envSpecificHeaderValue : string :=
  "API_KEY_" ++ environment_name currentEnvironment.

(** the first candidate, in list order, whose variable [suffix]ed is set *)
Fixpoint first_set (names : list string) (suffix : string) : option string :=
  match names with
  | [] => None
  | envVar :: rest =>
      if env_set (envVar ++ suffix) then Some (env_value (envVar ++ suffix))
      else first_set rest suffix
  end.

(** the last part of the callback: the value is a name or a list of
    candidate names *)
Definition resolve_names (finalHeaderKey : string) (envVarName : EnvVarNames)
           (h : gmap string string) : gmap string string :=
  match envVarName with
  | VarName name =>
      let envSpecificVarName := name ++ "_" ++ environment_name currentEnvironment in
      if env_set envSpecificVarName then
        <[finalHeaderKey := env_value envSpecificVarName]> h
      else if env_set name then <[finalHeaderKey := env_value name]> h
      else h
  | VarNames names =>
      match first_set names ("_" ++ environment_name currentEnvironment) with
      | Some v => <[finalHeaderKey := v]> h
      | None =>
          match first_set names "" with
          | Some v => <[finalHeaderKey := v]> h
          | None => h
          end
      end
  end.

(** [service.headers && service.headers[key]] while the loop runs.
    [h] is the object [processedService.headers]; when the descriptor
    declares [headers], the spread copy shares that object, so
    [service.headers] reads the current [h]. *)
Definition static_header (service : Service) (h : gmap string string)
           (key : string) : option string :=
  match headers service with
  | Some _ => h !! key
  | None => None
  end.

(** The callback of [Object.entries(service.headerEnvVars).forEach]. *)
Definition resolveHeader (service : Service) (h : gmap string string)
           (entry : string * EnvVarNames) : gmap string string :=
  let '(headerKey, envVarName) := entry in
  let finalHeaderKey :=
    if env_set headerKey then env_value headerKey else headerKey in
  let declared := default [] (headerEnvVars service) in
  if truthy_string (static_header service h envSpecificHeaderKey) then
    if startsWith headerKey "NAME_" then
      let h := delete headerKey h in
      let h := delete envSpecificHeaderKey h in
      let envVarName := lookup_own declared envSpecificHeaderKey in
      let apiKeyValue :=
        if truthy_names envVarName
           && env_set (default "" (property_key <$> envVarName))
        then env_value (default "" (property_key <$> envVarName))
        else "XXXX valor" in
      <[finalHeaderKey := apiKeyValue]> h
    else <[envSpecificHeaderKey := envSpecificHeaderValue]> h
  else if includes headerKey envSpecificHeaderKey then
    resolve_names headerKey envVarName h
  else if truthy_names (lookup_own declared envSpecificHeaderKey) then
    match lookup_own declared envSpecificHeaderKey with
    | Some (VarName envSpecificVarName) =>
        if env_set envSpecificVarName then
          <[finalHeaderKey := env_value envSpecificVarName]> h
        else resolve_names finalHeaderKey envVarName h
    | _ => resolve_names finalHeaderKey envVarName h
    end
  else resolve_names finalHeaderKey envVarName h.

(** [processedService.headers] *)
Definition resolveHeaders (service : Service) : option (gmap string string) :=
  match headerEnvVars service with
  | Some entries =>
      Some (fold_left (resolveHeader service) entries
                      (default ∅ (headers service)))
  | None => headers service
  end.

(** the callback of [services.map] *)
Definition processService (service : Service) : Service :=
  {| id := id service;
     name := name service;
     type := type service;
     enabled := enabled service;
     url := resolveUrl service;
     baseUrl := baseUrl service;
     path := path service;
     urlEnvVar := urlEnvVar service;
     baseUrlEnvVar := baseUrlEnvVar service;
     environmentUrls := environmentUrls service;
     headers := resolveHeaders service;
     headerEnvVars := headerEnvVars service;
     expectedContent := expectedContent service;
     environment := environment service;
     expectedStatus := expectedStatus service |}.
End service.

Definition processEnvironmentVariables (services : list Service)
           (environment : option EnvironmentType) : list Service :=
  let currentEnvironment :=
    match environment with
    | Some e => e
    | None => default SIT env_ENVIRONMENT
    end in
  let services := List.filter (included currentEnvironment) services in
  map (processService currentEnvironment) services.
End config.

(** The header an entry of [headerEnvVars] writes to once it reaches the
    probing of its variables: the last value of the variable
    [finalHeaderKey] of the callback. *)
Definition final_header_key (process_env : gmap string string)
           (currentEnvironment : EnvironmentType) (headerKey : string) : string :=
  if includes headerKey (envSpecificHeaderKey currentEnvironment) then headerKey
  else if env_set process_env headerKey then env_value process_env headerKey
       else headerKey.

(** the variable names a [headerEnvVars] value offers *)
Definition candidates (envVarName : EnvVarNames) : list string :=
  match envVarName with
  | VarName name => [name]
  | VarNames names => names
  end.

(** ** Check orchestrator (services/index.ts, rest/index.ts, soap/index.ts) *)

Inductive Status : Type := success | failed.

Definition Status_eqb (a b : Status) : bool :=
  match a, b with
  | success, success | failed, failed => true
  | _, _ => false
  end.

(** A result row.  Clock readings ([responseTime], [timestamp]) and the
    fields copied from the response or the error ([statusCode], [details],
    [response]) are left out. *)
Record ServiceResult : Type := {
  result_id : string;
  result_name : string;
  result_type : ServiceType;
  result_url : option string;
  result_status : Status
}.

Record Summary : Type := {
  total : Z;
  success_count : Z;
  failed_count : Z
}.

Record CheckResults : Type := {
  results_environment : EnvironmentType;
  services : list ServiceResult;
  summary : Summary
}.

Definition ServiceType_eqb (a b : ServiceType) : bool :=
  match a, b with
  | REST, REST | SOAP, SOAP => true
  | _, _ => false
  end.

(** The property names every plain object inherits from [Object.prototype];
    each of them reads as a function, or as the prototype itself, which is
    truthy. *)
Definition Object_prototype_members : list string :=
  ["constructor"; "__defineGetter__"; "__defineSetter__"; "hasOwnProperty";
   "__lookupGetter__"; "__lookupSetter__"; "isPrototypeOf";
   "propertyIsEnumerable"; "toString"; "valueOf"; "__proto__";
   "toLocaleString"].

(** The truthiness of [flags[key]] for a plain object of booleans, as
    [JSON.parse] or the default [{}] gives it: an own entry is read as it
    is, a missing one falls back on the prototype. *)
Definition flag_set (flags : gmap string bool) (key : string) : bool :=
  match flags !! key with
  | Some flag => flag
  | None => bool_decide (key ∈ Object_prototype_members)
  end.

Section orchestrator.
Variable process_env : gmap string string.
Variable JSON_stringify : value → string.
Variable ToString : value → string.
(** [error.message] *)
Variable message_of : JsError → string.
(** reading and parsing the catalog file, or the built-in example *)
Variable load_services : Result (list Service).
(** the transport calls, on a service that has a URL *)
Variable axios : Service → Result AxiosResponse.
Variable soap_call : Service → Result value.
(** [name.replace(/\s+/g, '-').toLowerCase()] *)
Variable slug : string → string.

Definition getServiceConfig (environment : option EnvironmentType)
  : Result (list Service) :=
  try_catch
    (let* services := load_services in
     Ok (processEnvironmentVariables process_env services environment))
    (fun error =>
       Throw (Error ("Failed to load service configuration: " ++ message_of error))).

Definition makeRestRequest (service : Service) : Result AxiosResponse :=
  if negb (truthy_string (url service)) then
    Throw (Error ("URL is required for REST service " ++ name service
                  ++ " (" ++ id service ++ ")"))
  else axios service.

Definition makeSoapRequest (service : Service) : Result value :=
  if negb (truthy_string (url service)) then
    Throw (Error ("URL is required for SOAP service " ++ name service
                  ++ " (" ++ id service ++ ")"))
  else soap_call service.

Definition row (service : Service) (t : ServiceType) (s : Status) : ServiceResult :=
  {| result_id := id service;
     result_name := name service;
     result_type := t;
     result_url := url service;
     result_status := s |}.

(** one iteration of the loop of [checkRestServices]: the row it pushes *)
Definition check_rest_service (disabledServicesList : gmap string bool)
           (service : Service) : ServiceResult :=
  let attempt :=
    let serviceId :=
      if negb (String.eqb (id service) "") then id service else slug (name service) in
    let isServiceDisabled := flag_set disabledServicesList serviceId in
    let* response :=
      if negb isServiceDisabled then
        let* r := makeRestRequest service in Ok (Some r)
      else Ok None in
    let* isValid := validateRestResponse service response in
    let* r := deref response in
    Ok (row service REST (if isValid then success else failed)) in
  match attempt with
  | Ok pushed => pushed
  | Throw error => row service REST failed
  end.

Definition checkRestServices (services : list Service)
           (disabledServicesList : gmap string bool) : list ServiceResult :=
  fold_left (fun results service =>
               (results ++ [check_rest_service disabledServicesList service])%list)
            services [].

(** one iteration of the loop of [checkSoapServices] *)
Definition check_soap_service (service : Service) : ServiceResult :=
  let attempt :=
    let* response := makeSoapRequest service in
    let* isValid := validateSoapResponse JSON_stringify ToString service response in
    Ok (row service SOAP (if isValid then success else failed)) in
  match attempt with
  | Ok pushed => pushed
  | Throw error => row service SOAP failed
  end.

Definition checkSoapServices (services : list Service) : list ServiceResult :=
  fold_left (fun results service => (results ++ [check_soap_service service])%list)
            services [].

Definition checkAllServices (serviceId : option string)
           (environment : option EnvironmentType)
           (disabledServicesList : gmap string bool) : Result CheckResults :=
  let currentEnvironment :=
    match environment with
    | Some e => e
    | None => default SIT (env_ENVIRONMENT process_env)
    end in
  let* config := getServiceConfig (Some currentEnvironment) in
  let servicesToCheck :=
    if truthy_string serviceId
    then List.filter (fun service => String.eqb (id service) (default "" serviceId))
                     config
    else config in
  if truthy_string serviceId && (List.length servicesToCheck =? 0)%nat then
    Throw (Error ("Service with ID " ++ default "" serviceId ++ " not found"))
  else
    let restServices :=
      List.filter (fun service => ServiceType_eqb (type service) REST) servicesToCheck in
    let services1 :=
      if (0 <? List.length restServices)%nat
      then ([] ++ checkRestServices restServices disabledServicesList)%list
      else [] in
    let soapServices :=
      List.filter (fun service => ServiceType_eqb (type service) SOAP) servicesToCheck in
    let services2 :=
      if (0 <? List.length soapServices)%nat
      then (services1 ++ checkSoapServices soapServices)%list
      else services1 in
    let total := Z.of_nat (List.length services2) in
    let success :=
      Z.of_nat (List.length
                  (List.filter (fun s => Status_eqb (result_status s) success)
                               services2)) in
    Ok {| results_environment := currentEnvironment;
          services := services2;
          summary := {| total := total;
                        success_count := success;
                        failed_count := total - success |} |}.
End orchestrator.

(** ** Sample descriptors and setters

    [descriptor] declares nothing but its identity; the setters give the
    object with one group of fields replaced. *)

Definition descriptor : Service :=
  {| id := "svc"; name := "Sample service"; type := REST; enabled := None;
     url := None; baseUrl := None; path := None; urlEnvVar := None;
     baseUrlEnvVar := None; environmentUrls := None; headers := None;
     headerEnvVars := None; expectedContent := JUndefined;
     environment := None; expectedStatus := None |}.

Definition with_id (service : Service) (i : string) : Service :=
  {| id := i; name := name service; type := type service;
     enabled := enabled service; url := url service;
     baseUrl := baseUrl service; path := path service;
     urlEnvVar := urlEnvVar service; baseUrlEnvVar := baseUrlEnvVar service;
     environmentUrls := environmentUrls service; headers := headers service;
     headerEnvVars := headerEnvVars service;
     expectedContent := expectedContent service;
     environment := environment service;
     expectedStatus := expectedStatus service |}.

Definition with_url (service : Service) (u : option string) : Service :=
  {| id := id service; name := name service; type := type service;
     enabled := enabled service; url := u;
     baseUrl := baseUrl service; path := path service;
     urlEnvVar := urlEnvVar service; baseUrlEnvVar := baseUrlEnvVar service;
     environmentUrls := environmentUrls service; headers := headers service;
     headerEnvVars := headerEnvVars service;
     expectedContent := expectedContent service;
     environment := environment service;
     expectedStatus := expectedStatus service |}.

Definition with_headers (service : Service) (h : gmap string string) : Service :=
  {| id := id service; name := name service; type := type service;
     enabled := enabled service; url := url service;
     baseUrl := baseUrl service; path := path service;
     urlEnvVar := urlEnvVar service; baseUrlEnvVar := baseUrlEnvVar service;
     environmentUrls := environmentUrls service; headers := Some h;
     headerEnvVars := headerEnvVars service;
     expectedContent := expectedContent service;
     environment := environment service;
     expectedStatus := expectedStatus service |}.

Definition with_expectedContent (service : Service) (e : value) : Service :=
  {| id := id service; name := name service; type := type service;
     enabled := enabled service; url := url service; baseUrl := baseUrl service;
     path := path service; urlEnvVar := urlEnvVar service;
     baseUrlEnvVar := baseUrlEnvVar service;
     environmentUrls := environmentUrls service; headers := headers service;
     headerEnvVars := headerEnvVars service; expectedContent := e;
     environment := environment service;
     expectedStatus := expectedStatus service |}.

Definition with_base_path (service : Service) (b p : string) : Service :=
  {| id := id service; name := name service; type := type service;
     enabled := enabled service; url := url service; baseUrl := Some b;
     path := Some p; urlEnvVar := urlEnvVar service;
     baseUrlEnvVar := baseUrlEnvVar service;
     environmentUrls := environmentUrls service; headers := headers service;
     headerEnvVars := headerEnvVars service;
     expectedContent := expectedContent service;
     environment := environment service;
     expectedStatus := expectedStatus service |}.

Definition with_urls (service : Service) (urls : EnvironmentType → option string)
           (var : option string) : Service :=
  {| id := id service; name := name service; type := type service;
     enabled := enabled service; url := url service; baseUrl := baseUrl service;
     path := path service; urlEnvVar := var;
     baseUrlEnvVar := baseUrlEnvVar service;
     environmentUrls := Some urls; headers := headers service;
     headerEnvVars := headerEnvVars service;
     expectedContent := expectedContent service;
     environment := environment service;
     expectedStatus := expectedStatus service |}.

Definition with_urlEnvVar (service : Service) (var : option string) : Service :=
  {| id := id service; name := name service; type := type service;
     enabled := enabled service; url := url service; baseUrl := baseUrl service;
     path := path service; urlEnvVar := var;
     baseUrlEnvVar := baseUrlEnvVar service;
     environmentUrls := environmentUrls service; headers := headers service;
     headerEnvVars := headerEnvVars service;
     expectedContent := expectedContent service;
     environment := environment service;
     expectedStatus := expectedStatus service |}.

Definition with_headerEnvVars (service : Service)
           (entries : list (string * EnvVarNames)) : Service :=
  {| id := id service; name := name service; type := type service;
     enabled := enabled service; url := url service; baseUrl := baseUrl service;
     path := path service; urlEnvVar := urlEnvVar service;
     baseUrlEnvVar := baseUrlEnvVar service;
     environmentUrls := environmentUrls service; headers := headers service;
     headerEnvVars := Some entries;
     expectedContent := expectedContent service;
     environment := environment service;
     expectedStatus := expectedStatus service |}.

(** the table [{ [e]: u }] *)
Definition single_url (e : EnvironmentType) (u : string)
  : EnvironmentType → option string :=
  fun e' => if EnvironmentType_eqb e e' then Some u else None.

(** environment variables of the header example, and the same with the
    variable named by a [NAME_API_KEY_UAT] entry *)
Definition uat_env : gmap string string :=
  <["API_KEY_UAT" := "k1"]> (<["API_KEY" := "k2"]> ∅).

Definition legacy_env : gmap string string :=
  <["LEGACY_KEY" := "k3"]> uat_env.

Definition api_key_descriptor : Service :=
  with_headerEnvVars descriptor [("X-API-Key", VarName "API_KEY")].

Definition legacy_descriptor : Service :=
  with_headerEnvVars descriptor
    [("X-API-Key", VarName "API_KEY"); ("NAME_API_KEY_UAT", VarName "LEGACY_KEY")].

(** a descriptor with literal headers whose first entry writes to
    [NAME_API_KEY_UAT], and an environment in which [K_UAT] is set but [K]
    is not *)
Definition shared_headers_descriptor : Service :=
  with_headers
    (with_headerEnvVars descriptor
       [("NAME_API_KEY_UAT", VarName "K"); ("X-API-Key", VarName "API_KEY")])
    ∅.

Definition shared_headers_env : gmap string string :=
  <["K_UAT" := "k4"]> uat_env.

(** a descriptor with a literal header and one header to resolve *)
Definition token_descriptor : Service :=
  with_headers
    (with_headerEnvVars descriptor [("Authorization", VarName "AUTH_TOKEN")])
    {[ "Accept" := "application/json" ]}.

(** a descriptor whose UAT entry is an empty placeholder *)
Definition placeholder_descriptor : Service :=
  with_urls descriptor (single_url UAT "") (Some "SERVICE_URL").

Definition placeholder_env : gmap string string :=
  <["SERVICE_URL" := "https://from-variable.example/api"]> ∅.

(** a response whose own property shadows [Object.prototype.hasOwnProperty],
    and an expectation with the same key *)
Definition shadowing_expectation : value :=
  JObj [("hasOwnProperty", JArr [JObj [("x", JNum 1)]])].

Definition shadowing_response : AxiosResponse :=
  {| status := 200; data := JObj [("hasOwnProperty", JArr [JNum 5])] |}.

(** [schema.properties] and its keys *)
Definition schema_properties (schema : Schema) : list (string * Schema) :=
  match schema with
  | SObject properties _ => properties
  | _ => []
  end.

Definition schemaKeys (schema : Schema) : list string :=
  map fst (schema_properties schema).

(** a value that is neither [null], an array nor an object *)
Definition is_primitive (v : value) : bool :=
  match v with
  | JUndefined | JBool _ | JNum _ | JStr _ => true
  | JNull | JArr _ | JObj _ => false
  end.

(** ** Shapes of payloads *)

(** no object inside [v] has an own property named [hasOwnProperty] *)
Fixpoint no_shadowing (v : value) : bool :=
  match v with
  | JArr items => forallb no_shadowing items
  | JObj entries =>
      negb (has_own entries "hasOwnProperty")
      && forallb (fun '(_, x) => no_shadowing x) entries
  | _ => true
  end.

(** every object inside [v] has pairwise distinct keys, none of them
    [__proto__] *)
Fixpoint ordinary_keys (v : value) : bool :=
  match v with
  | JArr items => forallb ordinary_keys items
  | JObj entries =>
      bool_decide (NoDup (keys entries))
      && negb (has_own entries "__proto__")
      && forallb (fun '(_, x) => ordinary_keys x) entries
  | _ => true
  end.

(** ** Bulk document check (rest/bulkDocumentCheck.ts) *)

Module BulkDocumentCheck.

(** [response.status] and [response.data] of the transport response *)
Definition response_status (response : AxiosResponse) : Z := status response.
Definition response_data (response : AxiosResponse) : value := data response.

Record DocumentData : Type := {
  tipoDocumento : string;
  numDocumento : string;
  primerApellido : string
}.

(** A result row: the spread [...doc] is the field [document]; the
    [timestamp] and the raw [responseData] are left out. *)
Record DocumentCheckResult : Type := {
  document : DocumentData;
  status : Status;
  hasInformation : bool;
  details : string;
  responseTime : option Z;
  statusCode : option Z
}.

(** [Object.keys(v).length]: the own keys of an object, the indices of an
    array or of a string, none for a number or a boolean; a [TypeError] on
    [null] and [undefined].  The length of a string is only compared with
    zero. *)
Definition Object_keys_length (v : value) : Result nat :=
  match v with
  | JUndefined | JNull => Throw TypeError
  | JObj entries => Ok (List.length entries)
  | JArr items => Ok (List.length items)
  | JStr s => Ok (String.length s)
  | JBool _ | JNum _ => Ok 0
  end.

Definition checkIfResponseHasInformation (responseData : value) : Result bool :=
  if negb (truthy responseData) then Ok false
  else
    let* error := get_property responseData "error" in
    let* erroneous_or_empty :=
      if truthy error then Ok true
      else if String.eqb (typeof responseData) "object" then
             let* n := Object_keys_length responseData in Ok (n =? 0)%nat
           else Ok false in
    if erroneous_or_empty then Ok false
    else
      let* data := get_property responseData "data" in
      let* specific :=
        if truthy data then Ok data
        else
          let* cliente := get_property responseData "cliente" in
          if truthy cliente then Ok cliente
          else get_property responseData "informacion" in
      if truthy specific then Ok true
      else
        let* n := Object_keys_length responseData in
        let hasContent := (0 <? n)%nat in
        Ok hasContent.

Inductive FileType : Type := excel | json.

Section bulk.
(** the environment variables *)
Variable process_env : gmap string string.
(** [value.toString()] of a value that is neither a string, [null] nor
    [undefined]; it throws when an own property shadows the method *)
Variable toString_method : value → Result string.
(** the rows of the first sheet ([XLSX.readFile], [sheet_to_json]) and the
    parsed content of a JSON file ([readFile], [JSON.parse]) *)
Variable excel_rows : Result (list value).
Variable json_content : Result value.
(** the [axios] call for a URL, headers and the query parameters of a
    document *)
Variable axios_get : string → gmap string string → DocumentData → Result AxiosResponse.
(** the elapsed time read from the clock around a call *)
Variable elapsed : DocumentData → Z.
(** [error.message] *)
Variable message_of : JsError → string.

(** [field?.toString() || ''] *)
Definition field_string (field : value) : Result string :=
  match field with
  | JUndefined | JNull => Ok ""
  | JStr s => Ok s
  | other => toString_method other
  end.

(** the callback of [data.map] *)
Definition to_document (item : value) : Result DocumentData :=
  let* t := get_property item "tipoDocumento" in
  let* tipo := field_string t in
  let* n := get_property item "numDocumento" in
  let* num := field_string n in
  let* a := get_property item "primerApellido" in
  let* apellido := field_string a in
  Ok {| tipoDocumento := tipo; numDocumento := num; primerApellido := apellido |}.

(** [data.map(...)], which stops at the first exception *)
Fixpoint map_r {A B} (f : A → Result B) (l : list A) : Result (list B) :=
  match l with
  | [] => Ok []
  | x :: rest =>
      let* y := f x in
      let* ys := map_r f rest in
      Ok (y :: ys)
  end.

(** the predicate of [.filter]: the three fields are not empty *)
Definition complete (doc : DocumentData) : bool :=
  negb (String.eqb (tipoDocumento doc) "")
  && negb (String.eqb (numDocumento doc) "")
  && negb (String.eqb (primerApellido doc) "").

Definition loadDocumentsFromFile (fileType : FileType) : Result (list DocumentData) :=
  match fileType with
  | excel =>
      let* data := excel_rows in
      let* documents := map_r to_document data in
      Ok (List.filter complete documents)
  | json =>
      let* data := json_content in
      match data with
      | JArr items =>
          let* documents := map_r to_document items in
          Ok (List.filter complete documents)
      | _ => Throw (Error "El archivo JSON no contiene un array de documentos")
      end
  end.

(** [`${baseUrl}/Reconocer/V1.0/Rest/getInformacion`]; an unset variable
    prints as [undefined] *)
Definition checkDocument_url : string :=
  let environment :=
    if env_set process_env "ENVIRONMENT" then env_value process_env "ENVIRONMENT"
    else "UAT" in
  let baseUrl :=
    if String.eqb environment "SIT" then process_env !! "SF_URL_SIT"
    else process_env !! "SF_URL_UAT" in
  default "undefined" baseUrl ++ "/Reconocer/V1.0/Rest/getInformacion".

Definition checkDocument_headers (customHeaders : option (gmap string string))
  : gmap string string :=
  let headers := default ∅ customHeaders in
  if env_set process_env "NAME_API_KEY" && env_set process_env "API_KEY" then
    <[env_value process_env "NAME_API_KEY" := env_value process_env "API_KEY"]> headers
  else headers.

Definition checkDocument (doc : DocumentData)
           (customHeaders : option (gmap string string)) : Result AxiosResponse :=
  axios_get checkDocument_url (checkDocument_headers customHeaders) doc.

(** one iteration of the loop of [processBulkDocumentCheck]: the row it
    pushes *)
Definition check_one_document (customHeaders : option (gmap string string))
           (doc : DocumentData) : DocumentCheckResult :=
  let attempt :=
    let* response := checkDocument doc customHeaders in
    let responseTime := elapsed doc in
    let* hasInformation := checkIfResponseHasInformation (response_data response) in
    Ok {| document := doc;
          status := success;
          hasInformation := hasInformation;
          details := if hasInformation then "Se encontró información"
                     else "No se encontró información";
          responseTime := Some responseTime;
          statusCode := Some (response_status response) |} in
  match attempt with
  | Ok pushed => pushed
  | Throw error =>
      {| document := doc;
         status := failed;
         hasInformation := false;
         details := "Error: " ++ message_of error;
         responseTime := None;
         statusCode := None |}
  end.
End bulk.

(** The summary.  [averageResponseTime], a floating-point quotient, is
    represented by its numerator [totalResponseTime]; its denominator is
    [successful].  While the loop runs, [errorMessages] holds the set
    [uniqueErrors], in insertion order. *)
Record DocumentCheckSummary : Type := {
  total : Z;
  successful : Z;
  failed : Z;
  withInformation : Z;
  withoutInformation : Z;
  totalResponseTime : Z;
  statusCodeDistribution : gmap Z Z;
  errorMessages : list string
}.

(** [Set.prototype.add] *)
Definition set_add (s : list string) (x : string) : list string :=
  if bool_decide (x ∈ s) then s else (s ++ [x])%list.

(** the callback of [results.forEach] *)
Definition count_result (summary : DocumentCheckSummary)
           (result : DocumentCheckResult) : DocumentCheckSummary :=
  if Status_eqb (status result) success then
    {| total := total summary;
       successful := successful summary + 1;
       failed := failed summary;
       withInformation :=
         if hasInformation result then withInformation summary + 1
         else withInformation summary;
       withoutInformation :=
         if hasInformation result then withoutInformation summary
         else withoutInformation summary + 1;
       totalResponseTime :=
         if truthy_number (responseTime result)
         then totalResponseTime summary + default 0 (responseTime result)
         else totalResponseTime summary;
       statusCodeDistribution :=
         if truthy_number (statusCode result) then
           let code := default 0 (statusCode result) in
           <[code := default 0 (statusCodeDistribution summary !! code) + 1]>
             (statusCodeDistribution summary)
         else statusCodeDistribution summary;
       errorMessages := errorMessages summary |}%Z
  else
    {| total := total summary;
       successful := successful summary;
       failed := failed summary + 1;
       withInformation := withInformation summary;
       withoutInformation := withoutInformation summary;
       totalResponseTime := totalResponseTime summary;
       statusCodeDistribution := statusCodeDistribution summary;
       errorMessages :=
         if negb (String.eqb (details result) "")
            && startsWith (details result) "Error:"
         then set_add (errorMessages summary) (details result)
         else errorMessages summary |}%Z.

Definition generateDocumentCheckSummary (results : list DocumentCheckResult)
  : DocumentCheckSummary :=
  fold_left count_result results
            {| total := Z.of_nat (List.length results);
               successful := 0;
               failed := 0;
               withInformation := 0;
               withoutInformation := 0;
               totalResponseTime := 0;
               statusCodeDistribution := ∅;
               errorMessages := [] |}.

(** [processBulkDocumentCheck]: the rows, one per loaded document; the
    summary is computed and printed before they are returned, and neither
    step throws. *)
Definition processBulkDocumentCheck
           (process_env : gmap string string)
           (toString_method : value → Result string)
           (excel_rows : Result (list value)) (json_content : Result value)
           (axios_get : string → gmap string string → DocumentData
                        → Result AxiosResponse)
           (elapsed : DocumentData → Z) (message_of : JsError → string)
           (fileType : FileType) (customHeaders : option (gmap string string))
  : Result (list DocumentCheckResult) :=
  let* documents :=
    loadDocumentsFromFile toString_method excel_rows json_content fileType in
  let results :=
    fold_left (fun results doc =>
                 (results ++ [check_one_document process_env axios_get elapsed
                                                 message_of customHeaders doc])%list)
              documents [] in
  let summary := generateDocumentCheckSummary results in
  Ok results.

End BulkDocumentCheck.

(** the number of results that satisfy [p] *)
Definition count_results (p : BulkDocumentCheck.DocumentCheckResult → bool)
           (results : list BulkDocumentCheck.DocumentCheckResult) : Z :=
  Z.of_nat (List.length (List.filter p results)).

Definition is_success (r : BulkDocumentCheck.DocumentCheckResult) : bool :=
  Status_eqb (BulkDocumentCheck.status r) success.

(** a successful result recorded under the status code [code] *)
Definition has_code (code : Z) (r : BulkDocumentCheck.DocumentCheckResult) : bool :=
  is_success r
  && bool_decide (BulkDocumentCheck.statusCode r = Some code)
  && negb (code =? 0)%Z.

(** the content of a JSON file with one complete and one incomplete entry *)
Definition sample_documents : value :=
  JArr [JObj [("tipoDocumento", JNum 1); ("numDocumento", JStr "1033798660");
              ("primerApellido", JStr "NAVARRO")];
        JObj [("tipoDocumento", JStr "1"); ("numDocumento", JStr "1234567890")]].

Definition sample_document : BulkDocumentCheck.DocumentData :=
  {| BulkDocumentCheck.tipoDocumento := "1";
     BulkDocumentCheck.numDocumento := "1033798660";
     BulkDocumentCheck.primerApellido := "NAVARRO" |}.

(** * Properties *)

(** ** Lists, keys and the array callbacks *)

Section every_lemmas.
Context {A : Type}.

Lemma every_i_spec (f : A → nat → bool) (l : list A) (i0 : nat) :
  every_i f l i0 = true ↔ ∀ j x, l !! j = Some x → f x (i0 + j) = true.
Proof.
  revert i0. induction l as [|a l IH]; intros i0; simpl.
  - split; [intros _ j x Hj; by destruct j | done].
  - destruct (f a i0) eqn:Hf.
    + rewrite IH. split.
      * intros H [|j] x Hj; simpl in Hj.
        -- injection Hj as <-. by rewrite Nat.add_0_r.
        -- rewrite <- Nat.add_succ_comm. by apply H.
      * intros H j x Hj. rewrite Nat.add_succ_comm. by apply (H (S j)).
    + split; [done|]. intros H.
      specialize (H 0 a eq_refl). rewrite Nat.add_0_r in H. congruence.
Qed.

Lemma every_spec (f : A → bool) (l : list A) :
  every f l = true ↔ ∀ x, x ∈ l → f x = true.
Proof.
  unfold every. rewrite every_i_spec. split.
  - intros H x Hx. apply list_elem_of_lookup in Hx as [j Hj]. eauto.
  - intros H j x Hj. apply H. by eapply list_elem_of_lookup_2.
Qed.

Lemma every_r_i_spec (f : A → nat → Result bool) (l : list A) (i0 : nat) :
  every_r_i f l i0 = Ok true ↔ ∀ j x, l !! j = Some x → f x (i0 + j) = Ok true.
Proof.
  revert i0. induction l as [|a l IH]; intros i0; simpl.
  - split; [intros _ j x Hj; by destruct j | done].
  - destruct (f a i0) as [[|]|e] eqn:Hf.
    + rewrite IH. split.
      * intros H [|j] x Hj; simpl in Hj.
        -- injection Hj as <-. by rewrite Nat.add_0_r.
        -- rewrite <- Nat.add_succ_comm. by apply H.
      * intros H j x Hj. rewrite Nat.add_succ_comm. by apply (H (S j)).
    + split; [done|]. intros H.
      specialize (H 0 a eq_refl). rewrite Nat.add_0_r in H. congruence.
    + split; [done|]. intros H.
      specialize (H 0 a eq_refl). rewrite Nat.add_0_r in H. congruence.
Qed.

Lemma every_r_spec (f : A → Result bool) (l : list A) :
  every_r f l = Ok true ↔ ∀ x, x ∈ l → f x = Ok true.
Proof.
  unfold every_r. rewrite every_r_i_spec. split.
  - intros H x Hx. apply list_elem_of_lookup in Hx as [j Hj]. eauto.
  - intros H j x Hj. apply H. by eapply list_elem_of_lookup_2.
Qed.
Lemma every_r_i_ext (f g : A → nat → Result bool) (l : list A) (i0 : nat) :
  (∀ x i, f x i = g x i) → every_r_i f l i0 = every_r_i g l i0.
Proof.
  intros Hfg. revert i0. induction l as [|a l IH]; intros i0; simpl; [done|].
  rewrite Hfg. destruct (g a i0) as [[|]|]; auto.
Qed.

Lemma every_r_ext (f g : A → Result bool) (l : list A) :
  (∀ x, f x = g x) → every_r f l = every_r g l.
Proof. intros Hfg. apply every_r_i_ext. auto. Qed.

Lemma every_i_ext (f g : A → nat → bool) (l : list A) (i0 : nat) :
  (∀ x i, f x i = g x i) → every_i f l i0 = every_i g l i0.
Proof.
  intros Hfg. revert i0. induction l as [|a l IH]; intros i0; simpl; [done|].
  rewrite Hfg. destruct (g a i0); auto.
Qed.

Lemma every_ext (f g : A → bool) (l : list A) :
  (∀ x, f x = g x) → every f l = every g l.
Proof. intros Hfg. apply every_i_ext. auto. Qed.
End every_lemmas.

Lemma has_own_spec (entries : list (string * value)) (key : string) :
  has_own entries key = true ↔ key ∈ keys entries.
Proof.
  unfold has_own. rewrite existsb_exists. split.
  - intros (k & Hk & Heq). apply String.eqb_eq in Heq as ->.
    by apply list_elem_of_In.
  - intros H. exists key. split; [by apply list_elem_of_In | apply String.eqb_refl].
Qed.

(** [at_key] is the callback applied to the property read. *)
Lemma at_key_get {B} (f : value → B) (key : string) (entries : list (string * value)) :
  at_key f (f JUndefined) key entries = f (get entries key).
Proof.
  induction entries as [|[k v] rest IH]; simpl; [done|].
  by destruct (String.eqb k key).
Qed.

Lemma validate_undefined_eq (schema : Schema) :
  validate_undefined schema = validateSchema JUndefined schema.
Proof. by destruct schema. Qed.

Lemma validateSchema_any (v : value) : validateSchema v (SType "any") = Ok false.
Proof. by destruct v. Qed.

(** ** Schema derivation and validation *)

Lemma lookup_assign {B} (entries : list (string * B)) (key k : string) (x : B) :
  lookup_own (assign entries key x) k
  = if String.eqb key k then Some x else lookup_own entries k.
Proof.
  induction entries as [|[k0 y] rest IH]; simpl; [done|].
  destruct (String.eqb k0 key) eqn:E0; simpl.
  - apply String.eqb_eq in E0. subst k0. by destruct (String.eqb key k).
  - rewrite IH. destruct (String.eqb k0 k) eqn:E1; [|done].
    apply String.eqb_eq in E1. subst k0.
    by rewrite String.eqb_sym, E0.
Qed.

Lemma lookup_set_property {B} (entries : list (string * B)) (key k : string) (x : B) :
  lookup_own (set_property entries key x) k
  = if String.eqb key "__proto__" then lookup_own entries k
    else if String.eqb key k then Some x else lookup_own entries k.
Proof.
  unfold set_property. destruct (String.eqb key "__proto__"); [done|].
  apply lookup_assign.
Qed.

(** Every own property of the table built by the [forEach] loop holds the
    value computed for its key. *)
Lemma lookup_forEach {B} (F : string → B) (ks : list string)
      (acc : list (string * B)) (k : string) (x : B) :
  (∀ k' x', lookup_own acc k' = Some x' → x' = F k') →
  lookup_own (fold_left (fun table key => set_property table key (F key)) ks acc) k
  = Some x →
  x = F k.
Proof.
  revert acc. induction ks as [|key ks IH]; intros acc Hacc; simpl.
  - apply Hacc.
  - apply IH. intros k' x'. rewrite lookup_set_property.
    destruct (String.eqb key "__proto__"); [apply Hacc|].
    destruct (String.eqb key k') eqn:E; [|apply Hacc].
    apply String.eqb_eq in E as ->. congruence.
Qed.

Lemma forEach_ext {A B} (f g : A → B → A) (l : list B) (a : A) :
  (∀ a x, f a x = g a x) → fold_left f l a = fold_left g l a.
Proof.
  intros Hfg. revert a. induction l as [|x l IH]; intros a; simpl; [done|].
  by rewrite Hfg, IH.
Qed.

Lemma generateSchema_object (entries : list (string * value)) :
  generateSchema (JObj entries)
  = SObject (fold_left (fun properties key =>
                          set_property properties key
                            (generateSchema (get entries key)))
                       (keys entries) [])
            (keys entries).
Proof.
  simpl. f_equal. apply forEach_ext. intros properties key. f_equal.
  apply (at_key_get generateSchema).
Qed.

Lemma generateSchema_property (entries : list (string * value)) (key : string)
      (sub : Schema) :
  lookup_own (schema_properties (generateSchema (JObj entries))) key = Some sub →
  sub = generateSchema (get entries key).
Proof.
  rewrite generateSchema_object. simpl.
  apply (lookup_forEach (fun key => generateSchema (get entries key))).
  intros ? ? [=].
Qed.

Lemma validateSchema_object (entries : list (string * value))
      (properties : list (string * Schema)) (required : list string) :
  validateSchema (JObj entries) (SObject properties required)
  = let* present := every_r (fun key => hasOwnProperty entries key) required in
    if negb present then Ok false
    else if negb (List.length (keys entries) =? List.length (map fst properties))%nat
    then Ok false
    else every_r (fun key =>
                    match lookup_own properties key with
                    | Some sub => validateSchema (get entries key) sub
                    | None => Ok false
                    end)
                 (keys entries).
Proof.
  simpl. destruct (every_r _ required) as [[|]|]; simpl; try done.
  destruct (negb _); [done|].
  apply every_r_ext. intros key.
  destruct (lookup_own properties key) as [sub|]; [|done].
  rewrite validate_undefined_eq.
  apply (at_key_get (fun v => validateSchema v sub)).
Qed.

Lemma validateSchema_array (items : list value) (schema : Schema) :
  validateSchema (JArr items) (SArray schema) = Ok true
  ↔ ∀ item, item ∈ items → validateSchema item schema = Ok true.
Proof. simpl. apply every_r_spec. Qed.

Lemma hasOwnProperty_true (entries : list (string * value)) (key : string) :
  hasOwnProperty entries key = Ok true → key ∈ keys entries.
Proof.
  unfold hasOwnProperty. destruct (has_own entries "hasOwnProperty"); [done|].
  intros [= H]. by apply has_own_spec.
Qed.

(** C5: under the schema strategy an object passes against the schema of an
    object expectation only if every key of the expectation (the schema's
    [required] list) is an own key of the actual object, the actual object
    has exactly as many keys as the schema has properties, and every
    property of the actual object passes the schema derived for that key;
    an array passes exactly when each of its elements passes the one schema
    derived from the first element of the expectation; and
    [{a:1,b:2,c:3}] is rejected against the expectation [{a:1,b:2}]. *)
Theorem schema_strategy_conditions (actual expected : list (string * value)) :
  (validateSchema (JObj actual) (generateSchema (JObj expected)) = Ok true →
   (∃ properties,
       generateSchema (JObj expected) = SObject properties (keys expected))
   ∧ (∀ key, key ∈ keys expected → key ∈ keys actual)
   ∧ List.length (keys actual)
     = List.length (schemaKeys (generateSchema (JObj expected)))
   ∧ (∀ key, key ∈ keys actual →
        validateSchema (get actual key) (generateSchema (get expected key))
        = Ok true))
  ∧ (∀ items first rest,
       validateSchema (JArr items) (generateSchema (JArr (first :: rest))) = Ok true
       ↔ ∀ item, item ∈ items →
                 validateSchema item (generateSchema first) = Ok true)
  ∧ validateSchema (JObj [("a", JNum 1); ("b", JNum 2); ("c", JNum 3)])
                   (generateSchema (JObj [("a", JNum 1); ("b", JNum 2)]))
    = Ok false.
Proof.
  split; [|split; [|reflexivity]].
  - intros Hpass.
    pose proof (generateSchema_property expected) as Hsub.
    rewrite generateSchema_object in Hpass, Hsub |- *.
    set (properties := fold_left _ _ _) in *. simpl in Hsub.
    rewrite validateSchema_object in Hpass.
    destruct (every_r _ (keys expected)) as [[|]|] eqn:Hreq; simpl in Hpass;
      try discriminate.
    destruct (List.length (keys actual) =? List.length (map fst properties))%nat
      eqn:Hlen; simpl in Hpass; [|discriminate].
    split; [by exists properties|]. split; [|split].
    + intros key Hkey. apply hasOwnProperty_true.
      by apply (proj1 (every_r_spec _ _) Hreq).
    + by apply Nat.eqb_eq in Hlen.
    + intros key Hkey.
      pose proof (proj1 (every_r_spec _ _) Hpass key Hkey) as Hk. simpl in Hk.
      destruct (lookup_own properties key) as [sub|] eqn:Hlook; [|discriminate].
      by rewrite <- (Hsub key sub Hlook).
  - intros items first rest. apply validateSchema_array.
Qed.

(** An object with the keys of the expectation passes, and the three
    conditions hold of it. *)
Lemma schema_strategy_conditions_witness :
  validateSchema (JObj [("a", JNum 1); ("b", JNum 2)])
                 (generateSchema (JObj [("a", JNum 7); ("b", JNum 8)])) = Ok true
  ∧ ((∃ properties,
         generateSchema (JObj [("a", JNum 7); ("b", JNum 8)])
         = SObject properties (keys [("a", JNum 7); ("b", JNum 8)]))
     ∧ (∀ key, key ∈ keys [("a", JNum 7); ("b", JNum 8)] →
               key ∈ keys [("a", JNum 1); ("b", JNum 2)])
     ∧ List.length (keys [("a", JNum 1); ("b", JNum 2)])
       = List.length (schemaKeys (generateSchema (JObj [("a", JNum 7); ("b", JNum 8)])))
     ∧ (∀ key, key ∈ keys [("a", JNum 1); ("b", JNum 2)] →
          validateSchema (get [("a", JNum 1); ("b", JNum 2)] key)
                         (generateSchema (get [("a", JNum 7); ("b", JNum 8)] key))
          = Ok true)).
Proof.
  split; [reflexivity|].
  apply (proj1 (schema_strategy_conditions
                  [("a", JNum 1); ("b", JNum 2)] [("a", JNum 7); ("b", JNum 8)])).
  reflexivity.
Defined.

(** C10: the schema derived from an empty array has the item schema
    [{type:'any'}], which no value satisfies; so against an empty-array
    expectation the schema strategy accepts the empty array and nothing
    else. *)
Theorem empty_array_expectation_schema :
  generateSchema (JArr []) = SArray (SType "any")
  ∧ (∀ v, validateSchema v (SType "any") = Ok false)
  ∧ (∀ item rest,
       validateSchema (JArr (item :: rest)) (generateSchema (JArr [])) = Ok false)
  ∧ (∀ v, validateSchema v (generateSchema (JArr [])) = Ok true ↔ v = JArr []).
Proof.
  split; [reflexivity|]. split; [apply validateSchema_any|]. split.
  - intros item rest. simpl. unfold every_r. simpl.
    by rewrite validateSchema_any.
  - intros v. split; [|by intros ->].
    destruct v as [| | | | |items|]; simpl; try discriminate.
    destruct items as [|item rest]; [done|].
    unfold every_r. simpl. by rewrite validateSchema_any.
Qed.

(** ** Structure comparison *)

Lemma sort_Permutation (l : list string) : sort l ≡ₚ l.
Proof. apply merge_sort_Permutation. Qed.

(** Sorting decides equality of key lists up to order. *)
Lemma sort_eq_iff (l1 l2 : list string) : sort l1 = sort l2 ↔ l1 ≡ₚ l2.
Proof.
  split.
  - intros Heq. rewrite <- (sort_Permutation l1), Heq. apply sort_Permutation.
  - intros Hperm. apply (StronglySorted_unique String.le).
    + apply StronglySorted_merge_sort; apply _.
    + apply StronglySorted_merge_sort; apply _.
    + by rewrite !sort_Permutation.
Qed.

(** the length test followed by the index-wise [===] test *)
Lemma same_keys_check (keys1 keys2 : list string) :
  (List.length keys1 =? List.length keys2)%nat
  && every_i (fun key index => String.eqb key (nth index keys2 "")) keys1 0 = true
  ↔ keys1 = keys2.
Proof.
  rewrite andb_true_iff, Nat.eqb_eq, every_i_spec. split.
  - intros [Hlen Hall].
    apply (list_eq_same_length _ _ (List.length keys2)); [done..|].
    intros i x y _ Hx Hy. specialize (Hall i x Hx). simpl in Hall.
    apply String.eqb_eq in Hall. rewrite nth_lookup, Hy in Hall. done.
  - intros ->. split; [done|]. intros j x Hj. simpl.
    rewrite nth_lookup, Hj. apply String.eqb_refl.
Qed.

Lemma compareStructure_undefined (v : value) :
  compareStructure JUndefined v = is_undefined v.
Proof. by destruct v. Qed.

Lemma compareStructure_array (items1 items2 : list value) :
  compareStructure (JArr items1) (JArr items2)
  = (List.length items1 =? List.length items2)%nat
    && every_i (fun item index => compareStructure item (array_get items2 index))
               items1 0.
Proof. simpl. by destruct (_ =? _)%nat. Qed.

Lemma compareStructure_object (entries1 entries2 : list (string * value)) :
  compareStructure (JObj entries1) (JObj entries2)
  = (List.length (sort (keys entries1)) =? List.length (sort (keys entries2)))%nat
    && every_i (fun key index => String.eqb key (nth index (sort (keys entries2)) ""))
               (sort (keys entries1)) 0
    && every (fun key => compareStructure (get entries1 key) (get entries2 key))
             (sort (keys entries1)).
Proof.
  simpl. destruct (_ =? _)%nat; simpl; [|done].
  destruct (every_i _ _ 0); simpl; [|done].
  apply every_ext. intros key. rewrite <- compareStructure_undefined.
  apply (at_key_get (fun v1 => compareStructure v1 (get entries2 key))).
Qed.

Lemma compareStructure_array_iff (items1 items2 : list value) :
  compareStructure (JArr items1) (JArr items2) = true
  ↔ List.length items1 = List.length items2
    ∧ ∀ i x y, items1 !! i = Some x → items2 !! i = Some y →
               compareStructure x y = true.
Proof.
  rewrite compareStructure_array, andb_true_iff, Nat.eqb_eq, every_i_spec.
  split; intros [Hlen Hall]; (split; [done|]).
  - intros i x y Hx Hy. specialize (Hall i x Hx). simpl in Hall.
    unfold array_get in Hall. by rewrite nth_lookup, Hy in Hall.
  - intros j x Hx. simpl.
    destruct (items2 !! j) as [y|] eqn:Hy.
    + unfold array_get. rewrite nth_lookup, Hy. simpl. eauto.
    + apply lookup_ge_None in Hy. apply lookup_lt_Some in Hx. lia.
Qed.

Lemma compareStructure_object_iff (entries1 entries2 : list (string * value)) :
  compareStructure (JObj entries1) (JObj entries2) = true
  ↔ keys entries1 ≡ₚ keys entries2
    ∧ ∀ key, key ∈ keys entries1 →
             compareStructure (get entries1 key) (get entries2 key) = true.
Proof.
  rewrite compareStructure_object, andb_true_iff, same_keys_check, sort_eq_iff,
    every_spec.
  split; intros [Hkeys Hall]; (split; [done|]); intros key Hkey; apply Hall.
  - by rewrite sort_Permutation.
  - by rewrite sort_Permutation in Hkey.
Qed.

Lemma same_key_set (keys1 keys2 : list string) :
  NoDup keys1 → NoDup keys2 →
  keys1 ≡ₚ keys2 ↔ ∀ key, key ∈ keys1 ↔ key ∈ keys2.
Proof.
  intros Hnd1 Hnd2. split.
  - intros Hperm key. by rewrite Hperm.
  - by apply NoDup_Permutation.
Qed.

(** The claim of C6 on primitives fails across runtime types: a number
    against a string is rejected by the [typeof] guard. *)
Lemma structure_number_against_string :
  is_primitive (JNum 1) = true
  ∧ is_primitive (JStr "a") = true
  ∧ compareStructure (JNum 1) (JStr "a") = false.
Proof. repeat split. Qed.

(** C6 (amended): under the structure strategy two nulls match and a null
    never matches anything else; two primitives match exactly when they have
    the same runtime type ([typeof]), whatever their values; two arrays match
    iff they have the same length and their elements match pairwise in
    order; two objects match iff they have the same key set and the values
    under each key match.  [{a:1,b:[1,2]}] matches the expectation
    [{a:99,b:[7,8]}] and does not match [{a:1,b:[1,2,3]}]. *)
Theorem structure_strategy_spec (a b : value)
        (entries1 entries2 : list (string * value)) :
  is_primitive a = true → is_primitive b = true →
  NoDup (keys entries1) → NoDup (keys entries2) →
  compareStructure JNull JNull = true
  ∧ (∀ v, compareStructure JNull v = is_null v ∧ compareStructure v JNull = is_null v)
  ∧ compareStructure a b = bool_decide (typeof a = typeof b)
  ∧ (∀ items1 items2,
       compareStructure (JArr items1) (JArr items2) = true
       ↔ List.length items1 = List.length items2
         ∧ ∀ i x y, items1 !! i = Some x → items2 !! i = Some y →
                    compareStructure x y = true)
  ∧ (compareStructure (JObj entries1) (JObj entries2) = true
     ↔ (∀ key, key ∈ keys entries1 ↔ key ∈ keys entries2)
       ∧ ∀ key, key ∈ keys entries1 →
                compareStructure (get entries1 key) (get entries2 key) = true)
  ∧ compareStructure (JObj [("a", JNum 1); ("b", JArr [JNum 1; JNum 2])])
                     (JObj [("a", JNum 99); ("b", JArr [JNum 7; JNum 8])]) = true
  ∧ compareStructure (JObj [("a", JNum 1); ("b", JArr [JNum 1; JNum 2])])
                     (JObj [("a", JNum 1); ("b", JArr [JNum 1; JNum 2; JNum 3])])
    = false.
Proof.
  intros Ha Hb Hnd1 Hnd2.
  split; [reflexivity|]. split; [by intros []|]. split.
  { destruct a, b; try discriminate; reflexivity. }
  split; [apply compareStructure_array_iff|].
  split; [|split; reflexivity].
  rewrite compareStructure_object_iff. by rewrite same_key_set.
Qed.

Lemma structure_strategy_spec_witness :
  is_primitive (JNum 1) = true ∧ is_primitive (JNum 99) = true
  ∧ NoDup (keys [("a", JNum 1); ("b", JNull)])
  ∧ NoDup (keys [("b", JNull); ("a", JNum 99)])
  ∧ compareStructure (JNum 1) (JNum 99) = true
  ∧ compareStructure (JObj [("a", JNum 1); ("b", JNull)])
                     (JObj [("b", JNull); ("a", JNum 99)]) = true.
Proof.
  assert (H1 : NoDup (keys [("a", JNum 1); ("b", JNull)])).
  { apply (bool_decide_unpack _). vm_compute. exact I. }
  assert (H2 : NoDup (keys [("b", JNull); ("a", JNum 99)])).
  { apply (bool_decide_unpack _). vm_compute. exact I. }
  split; [reflexivity|]. split; [reflexivity|].
  split; [exact H1|]. split; [exact H2|].
  split.
  - exact (proj1 (proj2 (proj2
             (structure_strategy_spec (JNum 1) (JNum 99)
                [("a", JNum 1); ("b", JNull)] [("b", JNull); ("a", JNum 99)]
                eq_refl eq_refl H1 H2)))).
  - reflexivity.
Defined.

(** ** REST validation and exceptions *)

(** The claim of C1 fails: with the schema strategy throwing (the response
    shadows [hasOwnProperty]) the pattern strategy, which would accept the
    response, is not consulted and the verdict is [false]. *)
Lemma throwing_strategy_stops_validation :
  truthy shadowing_expectation = true
  ∧ compareStructure (data shadowing_response) shadowing_expectation = false
  ∧ validateSchema (data shadowing_response) (generateSchema shadowing_expectation)
    = Throw TypeError
  ∧ matchesPattern (data shadowing_response) (createPattern shadowing_expectation)
    = true
  ∧ validateRestResponse (with_expectedContent descriptor shadowing_expectation)
                         (Some shadowing_response)
    = Ok false.
Proof. repeat split; vm_compute; reflexivity. Qed.

(** C1 (amended): for a service with a declared (truthy) [expectedContent]
    and any response, validation never propagates an exception and always
    returns a verdict.  The strategies run in the order structure, schema,
    pattern, flexible inside one [try] block: the verdict is [true] exactly
    when the status check passes and some strategy succeeds with no earlier
    strategy having thrown; an exception in one strategy ends validation with
    the verdict [false], the later strategies not being attempted. *)
Theorem strategy_exception_fails_validation (service : Service)
        (response : AxiosResponse) :
  truthy (expectedContent service) = true →
  let actual := data response in
  let expected := expectedContent service in
  let status_ok :=
    negb (truthy_number (expectedStatus service))
    || bool_decide (Some (status response) = expectedStatus service) in
  (∃ verdict, validateRestResponse service (Some response) = Ok verdict)
  ∧ (validateRestResponse service (Some response) = Ok true
     ↔ status_ok = true
       ∧ (compareStructure actual expected = true
          ∨ validateSchema actual (generateSchema expected) = Ok true
          ∨ (validateSchema actual (generateSchema expected) = Ok false
             ∧ matchesPattern actual (createPattern expected) = true)
          ∨ (validateSchema actual (generateSchema expected) = Ok false
             ∧ compareFlexible actual expected rest_options = Ok true)))
  ∧ (∀ e, compareStructure actual expected = false →
          validateSchema actual (generateSchema expected) = Throw e →
          validateRestResponse service (Some response) = Ok false)
  ∧ (∀ e, compareStructure actual expected = false →
          validateSchema actual (generateSchema expected) = Ok false →
          matchesPattern actual (createPattern expected) = false →
          compareFlexible actual expected rest_options = Throw e →
          validateRestResponse service (Some response) = Ok false).
Proof.
  intros Htruthy actual expected status_ok.
  unfold validateRestResponse, run_strategies. rewrite Htruthy. simpl.
  fold actual expected. subst status_ok.
  destruct (truthy_number (expectedStatus service)); simpl;
    [destruct (bool_decide (Some (status response) = expectedStatus service));
     simpl|];
    destruct (compareStructure actual expected); simpl;
    destruct (validateSchema actual (generateSchema expected)) as [[|]|]; simpl;
    destruct (matchesPattern actual (createPattern expected)); simpl;
    destruct (compareFlexible actual expected rest_options) as [[|]|]; simpl;
    destruct (log_Object_keys actual); simpl;
    destruct (log_Object_keys expected); simpl;
    (split; [eauto|]); (split; [|split; congruence]);
    (split; [intros; split; [done|]; try discriminate; tauto
            |intros [? Hor]; try discriminate; try done;
             destruct Hor as [|[|[[]|[]]]]; congruence]).
Qed.

Lemma strategy_exception_fails_validation_witness :
  truthy shadowing_expectation = true
  ∧ compareStructure (data shadowing_response) shadowing_expectation = false
  ∧ validateSchema (data shadowing_response) (generateSchema shadowing_expectation)
    = Throw TypeError
  ∧ validateRestResponse (with_expectedContent descriptor shadowing_expectation)
                         (Some shadowing_response)
    = Ok false.
Proof.
  assert (H1 : compareStructure (data shadowing_response) shadowing_expectation
               = false) by reflexivity.
  assert (H2 : validateSchema (data shadowing_response)
                              (generateSchema shadowing_expectation)
               = Throw TypeError) by reflexivity.
  split; [reflexivity|]. split; [exact H1|]. split; [exact H2|].
  exact (proj1 (proj2 (proj2
           (strategy_exception_fails_validation
              (with_expectedContent descriptor shadowing_expectation)
              shadowing_response eq_refl)))
           TypeError H1 H2).
Defined.

(** ** SOAP validation *)

(** The claim of C2 fails: the key [FAULT] is none of the four spellings the
    validator reads, and the response is accepted. *)
Lemma soap_uppercase_fault_accepted :
  validateSoapResponse (fun _ => "") (fun _ => "") descriptor
    (JObj [("FAULT", JObj [("faultstring", JStr "Server error")])])
  = Ok true.
Proof. reflexivity. Qed.

(** C2 (amended): a SOAP response object is rejected whenever one of its
    four top-level properties [Fault], [fault], [error], [Error] (these exact
    spellings) holds a truthy value, whatever the outcome of the
    [expectedContent] check; otherwise the verdict is that of the
    [expectedContent] check.  In particular a body [{Fault:{...}}] always
    fails. *)
Theorem soap_fault_indicator (JSON_stringify ToString : value → string)
        (service : Service) (entries : list (string * value)) :
  let response := JObj entries in
  let contains_expected :=
    negb (truthy (expectedContent service))
    || includes (JSON_stringify response) (ToString (expectedContent service)) in
  let indicator :=
    truthy (get entries "Fault") || truthy (get entries "fault")
    || truthy (get entries "error") || truthy (get entries "Error") in
  validateSoapResponse JSON_stringify ToString service response
  = Ok (contains_expected && negb indicator)
  ∧ ∀ fields rest,
      validateSoapResponse JSON_stringify ToString service
        (JObj (("Fault", JObj fields) :: rest))
      = Ok false.
Proof.
  split.
  - unfold validateSoapResponse. simpl.
    destruct (truthy (expectedContent service)); simpl;
      [destruct (includes _ _); simpl; [|done]|];
      destruct (truthy (get entries "Fault")) eqn:H1; simpl; rewrite ?H1; try done;
      destruct (truthy (get entries "fault")) eqn:H2; simpl; rewrite ?H2; try done;
      destruct (truthy (get entries "error")) eqn:H3; simpl; rewrite ?H3; try done;
      by destruct (truthy (get entries "Error")).
  - intros fields rest. unfold validateSoapResponse. simpl.
    destruct (truthy (expectedContent service)); simpl; [|done].
    by destruct (includes _ _).
Qed.

(** ** Configuration resolver *)

Lemma EnvironmentType_eqb_eq (a b : EnvironmentType) :
  EnvironmentType_eqb a b = true ↔ a = b.
Proof. destruct a, b; split; (reflexivity || discriminate). Qed.

Lemma included_spec (E : EnvironmentType) (service : Service) :
  included E service = true
  ↔ ((∃ u, environmentUrl E service = Some u)
     ∨ environment service = None
     ∨ environment service = Some E)
    ∧ enabled service ≠ Some false.
Proof.
  unfold included, environmentUrl.
  rewrite andb_true_iff, !orb_true_iff, negb_true_iff, bool_decide_eq_false.
  apply and_iff_compat_r.
  assert (Hpin : (match environment service with
                  | Some e => EnvironmentType_eqb e E
                  | None => false
                  end = true) ↔ environment service = Some E).
  { destruct (environment service) as [e|]; [|done].
    rewrite EnvironmentType_eqb_eq. split; congruence. }
  assert (Hnone : (match environment service with
                   | Some _ => false
                   | None => true
                   end = true) ↔ environment service = None).
  { by destruct (environment service). }
  assert (Hurl : (match environmentUrls service with
                  | Some urls => bool_decide (is_Some (urls E))
                  | None => false
                  end = true)
                 ↔ ∃ u, match environmentUrls service with
                        | Some urls => urls E
                        | None => None
                        end = Some u).
  { destruct (environmentUrls service) as [urls|].
    - by rewrite bool_decide_eq_true.
    - split; [done | by intros [? ?]]. }
  rewrite Hpin, Hnone, Hurl. tauto.
Qed.

(** C3: for every catalog and every environment [E], the resolver's output
    consists of the resolved forms of exactly the descriptors that (declare
    an [environmentUrls] entry for [E], or declare no [environment] pin, or
    are pinned to [E]) and whose [enabled] flag is not [false]; a descriptor
    failing the test contributes nothing to the output. *)
Theorem resolver_filter_contract (process_env : gmap string string)
        (catalog : list Service) (E : EnvironmentType) :
  (∀ resolved,
     resolved ∈ processEnvironmentVariables process_env catalog (Some E)
     ↔ ∃ service,
         service ∈ catalog
         ∧ resolved = processService process_env E service
         ∧ ((∃ u, environmentUrl E service = Some u)
            ∨ environment service = None
            ∨ environment service = Some E)
         ∧ enabled service ≠ Some false)
  ∧ List.length (processEnvironmentVariables process_env catalog (Some E))
    = List.length (List.filter (included E) catalog).
Proof.
  unfold processEnvironmentVariables. split; [|apply length_map].
  intros resolved. rewrite list_elem_of_In, in_map_iff. split.
  - intros (service & <- & Hin). apply filter_In in Hin as [Hin Hincl].
    exists service. rewrite list_elem_of_In. split; [done|]. split; [done|].
    by apply included_spec.
  - intros (service & Hin & -> & Hcond). exists service. split; [done|].
    apply filter_In. split; [by apply list_elem_of_In|].
    by apply included_spec.
Qed.

Lemma env_set_value (process_env : gmap string string) (name : string) :
  env_set process_env name = true →
  String.eqb (env_value process_env name) "" = false.
Proof.
  unfold env_set, env_value, truthy_string.
  destruct (process_env !! name); simpl; [|done]. by rewrite negb_true_iff.
Qed.

Lemma String_eqb_false (a b : string) : a ≠ b → String.eqb a b = false.
Proof. intros H. by apply String.eqb_neq. Qed.

(** The claim of C4 fails on a declared but empty entry: the URL then comes
    from [urlEnvVar]. *)
Lemma empty_environment_url_uses_urlEnvVar :
  environmentUrl UAT placeholder_descriptor = Some ""
  ∧ urlEnvVar placeholder_descriptor = Some "SERVICE_URL"
  ∧ placeholder_env !! "SERVICE_URL" = Some "https://from-variable.example/api"
  ∧ resolveUrl placeholder_env UAT placeholder_descriptor
    = Some "https://from-variable.example/api".
Proof. repeat split; vm_compute; reflexivity. Qed.

(** C4 (amended): for every descriptor whose [environmentUrls] entry for the
    current environment is a non-empty string, the resolved URL is built from
    that entry alone: its base is the value of the environment variable named
    by the entry when that variable is set and non-empty, else the entry
    itself, joined with [path] when a non-empty path is declared.
    [urlEnvVar] plays no part, whatever it names. *)
Theorem environment_url_precedence (process_env : gmap string string)
        (E : EnvironmentType) (service : Service) (candidate : string) :
  environmentUrl E service = Some candidate →
  candidate ≠ "" →
  let base :=
    if env_set process_env candidate then env_value process_env candidate
    else candidate in
  resolveUrl process_env E service
  = Some (if truthy_string (path service)
          then join_url base (default "" (path service))
          else base)
  ∧ ∀ var, resolveUrl process_env E (with_urlEnvVar service var)
           = resolveUrl process_env E service.
Proof.
  intros Hentry Hne base.
  assert (Hrule : ∀ s, environmentUrl E s = Some candidate →
                       path s = path service →
            resolveUrl process_env E s
            = Some (if truthy_string (path service)
                    then join_url base (default "" (path service))
                    else base)).
  { intros s Hs Hpath. unfold resolveUrl. rewrite Hs, Hpath. simpl.
    rewrite (String_eqb_false _ _ Hne). simpl. fold base.
    destruct (truthy_string (path service)); [done|].
    assert (Hbase : String.eqb base "" = false).
    { subst base. destruct (env_set process_env candidate) eqn:Hset.
      - by apply env_set_value.
      - by apply String_eqb_false. }
    by rewrite Hbase. }
  split; [by apply Hrule|].
  intros var. rewrite (Hrule service), (Hrule (with_urlEnvVar service var)); done.
Qed.

Lemma environment_url_precedence_witness :
  environmentUrl UAT
    (with_urls descriptor (single_url UAT "https://uat.example/api")
               (Some "SERVICE_URL"))
  = Some "https://uat.example/api"
  ∧ "https://uat.example/api" ≠ ""
  ∧ resolveUrl placeholder_env UAT
      (with_urls descriptor (single_url UAT "https://uat.example/api")
                 (Some "SERVICE_URL"))
    = Some "https://uat.example/api".
Proof.
  split; [reflexivity|]. split; [discriminate|].
  exact (proj1 (environment_url_precedence placeholder_env UAT
                  (with_urls descriptor (single_url UAT "https://uat.example/api")
                             (Some "SERVICE_URL"))
                  "https://uat.example/api" eq_refl
                  ltac:(discriminate))).
Defined.

(** *** Joining base and path *)

Lemma endsWith_app_slash (b : string) : endsWith (b ++ "/") "/" = true.
Proof.
  induction b as [|c b IH]; [reflexivity|].
  simpl. simpl in IH. rewrite IH.
  by destruct (Ascii.eqb c _), (String.eqb (b ++ "/") "").
Qed.

Lemma slice_0_m1_app_slash (b : string) : slice_0_m1 (b ++ "/") = b.
Proof.
  induction b as [|c b IH]; [reflexivity|].
  simpl. simpl in IH. rewrite IH. by destruct b.
Qed.

Lemma app_slash_not_empty (b : string) : String.eqb (b ++ "/") "" = false.
Proof. by destruct b. Qed.

Lemma startsWith_slash (p : string) : startsWith ("/" ++ p) "/" = true.
Proof.
  unfold startsWith. simpl. by destruct p.
Qed.

Lemma join_url_slashes (b p : string) : join_url (b ++ "/") ("/" ++ p) = b ++ "/" ++ p.
Proof.
  unfold join_url.
  by rewrite endsWith_app_slash, slice_0_m1_app_slash, startsWith_slash.
Qed.

Lemma join_url_plain (b p : string) :
  endsWith b "/" = false → startsWith p "/" = false → join_url b p = b ++ "/" ++ p.
Proof. unfold join_url. by intros -> ->. Qed.

(** The claim of C8 fails for an empty base: [baseUrl] ["/"] with path
    ["/x"] resolves to ["/x"], while [baseUrl] [""] with path ["x"] resolves
    to the bare path ["x"]. *)
Lemma empty_base_breaks_slash_normalization :
  resolveUrl ∅ UAT (with_base_path descriptor ("" ++ "/") ("/" ++ "x")) = Some "/x"
  ∧ resolveUrl ∅ UAT (with_base_path descriptor "" "x") = Some "x".
Proof. split; vm_compute; reflexivity. Qed.

(** C8 (amended): take a descriptor resolved by the [baseUrl]/[path] rule
    (no usable [environmentUrls] entry, no [urlEnvVar] in force, no
    [baseUrlEnvVar] override).  With [baseUrl] [b+"/"] and [path] ["/"+p] it
    resolves to [b+"/"+p] for all strings [b] and [p]; with [baseUrl] [b] and
    [path] [p] it resolves to the same URL [b+"/"+p] provided [b] is not
    empty and does not end in a slash and [p] is not empty and does not
    start with a slash. *)
Theorem base_path_slash_normalization (process_env : gmap string string)
        (E : EnvironmentType) (service : Service) (b p : string) :
  truthy_string (environmentUrl E service) = false →
  truthy_string (urlEnvVar service)
  && env_set process_env (default "" (urlEnvVar service)) = false →
  truthy_string (baseUrlEnvVar service)
  && env_set process_env (default "" (baseUrlEnvVar service)) = false →
  resolveUrl process_env E (with_base_path service (b ++ "/") ("/" ++ p))
  = Some (b ++ "/" ++ p)
  ∧ (b ≠ "" → p ≠ "" → endsWith b "/" = false → startsWith p "/" = false →
     resolveUrl process_env E (with_base_path service b p) = Some (b ++ "/" ++ p)).
Proof.
  intros Hurls Hvar Hbase. split.
  - unfold resolveUrl.
    change (environmentUrl E (with_base_path service (b ++ "/") ("/" ++ p)))
      with (environmentUrl E service).
    rewrite Hurls. simpl. rewrite Hvar, Hbase. simpl.
    repeat (rewrite !app_slash_not_empty; simpl).
    by rewrite join_url_slashes.
  - intros Hb Hp Hends Hstarts. unfold resolveUrl.
    change (environmentUrl E (with_base_path service b p))
      with (environmentUrl E service).
    rewrite Hurls. simpl. rewrite Hvar, Hbase. simpl.
    repeat (rewrite ?(String_eqb_false b ""), ?(String_eqb_false p "") by done;
            progress simpl).
    by rewrite join_url_plain.
Qed.

Lemma base_path_slash_normalization_witness :
  truthy_string (environmentUrl UAT descriptor) = false
  ∧ truthy_string (urlEnvVar descriptor)
    && env_set ∅ (default "" (urlEnvVar descriptor)) = false
  ∧ truthy_string (baseUrlEnvVar descriptor)
    && env_set ∅ (default "" (baseUrlEnvVar descriptor)) = false
  ∧ "https://a.com" ≠ "" ∧ "x" ≠ ""
  ∧ endsWith "https://a.com" "/" = false ∧ startsWith "x" "/" = false
  ∧ resolveUrl ∅ UAT (with_base_path descriptor ("https://a.com" ++ "/") ("/" ++ "x"))
    = Some "https://a.com/x"
  ∧ resolveUrl ∅ UAT (with_base_path descriptor "https://a.com" "x")
    = Some "https://a.com/x".
Proof.
  do 3 (split; [reflexivity|]). do 2 (split; [discriminate|]).
  do 2 (split; [reflexivity|]).
  split.
  - exact (proj1 (base_path_slash_normalization ∅ UAT descriptor
                    "https://a.com" "x" eq_refl eq_refl eq_refl)).
  - exact (proj2 (base_path_slash_normalization ∅ UAT descriptor
                    "https://a.com" "x" eq_refl eq_refl eq_refl)
                 ltac:(discriminate) ltac:(discriminate) eq_refl eq_refl).
Defined.

(** *** Header resolution *)

(** The claim of C7 fails when the descriptor also declares a
    [NAME_API_KEY_UAT] entry naming a set variable: the header [X-API-Key],
    whose value is the single name [API_KEY], then receives the value of
    that other variable, although [API_KEY_UAT] is set. *)
Lemma legacy_entry_overrides_header :
  headerEnvVars legacy_descriptor
  = Some [("X-API-Key", VarName "API_KEY");
          ("NAME_API_KEY_UAT", VarName "LEGACY_KEY")]
  ∧ legacy_env !! "API_KEY_UAT" = Some "k1"
  ∧ legacy_env !! "API_KEY" = Some "k2"
  ∧ (resolveHeaders legacy_env UAT legacy_descriptor
       ≫= fun h => h !! "X-API-Key") = Some "k3".
Proof. repeat split; vm_compute; reflexivity. Qed.

(** The headers object of the result is the one the descriptor declares,
    so an entry that writes to [NAME_API_KEY_UAT] switches the convention
    on for the entries after it: here [K] is not set, [K_UAT] is, and
    [X-API-Key] is never given a value although [API_KEY_UAT] is set. *)
Lemma earlier_entry_feeds_convention :
  env_set shared_headers_env "K" = false
  ∧ env_set shared_headers_env "API_KEY_UAT" = true
  ∧ resolveHeaders shared_headers_env UAT shared_headers_descriptor
    = Some {[ "NAME_API_KEY_UAT" := "API_KEY_UAT" ]}.
Proof. repeat split; vm_compute; reflexivity. Qed.

Lemma prefix_refl (s : string) : String.prefix s s = true.
Proof.
  induction s as [|c s IH]; simpl; [done|].
  by destruct (Ascii.ascii_dec c c).
Qed.

Lemma includes_refl (s : string) : includes s s = true.
Proof.
  destruct s as [|c s]; [done|].
  change (includes (String c s) (String c s))
    with (if String.prefix (String c s) (String c s) then true
          else includes s (String c s)).
  by rewrite prefix_refl.
Qed.

Lemma final_header_key_refl (process_env : gmap string string)
      (E : EnvironmentType) :
  final_header_key process_env E (envSpecificHeaderKey E) = envSpecificHeaderKey E.
Proof. unfold final_header_key. by rewrite includes_refl. Qed.

Lemma lookup_own_elem_of {B} (entries : list (string * B)) (key : string) (x : B) :
  lookup_own entries key = Some x → (key, x) ∈ entries.
Proof.
  induction entries as [|[k y] entries IH]; simpl; [done|].
  destruct (String.eqb k key) eqn:Hk.
  - apply String.eqb_eq in Hk as ->. intros [= ->]. left.
  - intros Hx. right. by apply IH.
Qed.

(** A descriptor none of whose entries writes to [NAME_API_KEY_<ENV>] has
    no entry of that name. *)
Lemma lookup_own_no_convention (process_env : gmap string string)
      (E : EnvironmentType) (entries : list (string * EnvVarNames)) :
  Forall (fun entry => final_header_key process_env E entry.1
                       ≠ envSpecificHeaderKey E) entries →
  lookup_own entries (envSpecificHeaderKey E) = None.
Proof.
  intros Hnames.
  destruct (lookup_own entries (envSpecificHeaderKey E)) as [v|] eqn:Hv; [|done].
  apply lookup_own_elem_of in Hv.
  rewrite Forall_forall in Hnames. destruct (Hnames _ Hv).
  apply final_header_key_refl.
Qed.

Lemma resolve_names_lookup_ne (process_env : gmap string string)
      (E : EnvironmentType) (finalHeaderKey : string) (envVarName : EnvVarNames)
      (h : gmap string string) (key : string) :
  finalHeaderKey ≠ key →
  resolve_names process_env E finalHeaderKey envVarName h !! key = h !! key.
Proof.
  intros Hne. unfold resolve_names.
  destruct envVarName as [name|names];
    repeat match goal with
           | |- context [if ?b then _ else _] => destruct b
           | |- context [match ?o with Some _ => _ | None => _ end] => destruct o
           end;
    by rewrite ?lookup_insert_ne.
Qed.

(** Without the convention the callback is the probing of the variables. *)
Lemma resolveHeader_no_convention (process_env : gmap string string)
      (E : EnvironmentType) (service : Service) (h : gmap string string)
      (headerKey : string) (envVarName : EnvVarNames) :
  truthy_string (static_header service h (envSpecificHeaderKey E)) = false →
  lookup_own (default [] (headerEnvVars service)) (envSpecificHeaderKey E) = None →
  resolveHeader process_env E service h (headerKey, envVarName)
  = resolve_names process_env E (final_header_key process_env E headerKey)
                  envVarName h.
Proof.
  intros Hstatic Hnone. unfold resolveHeader, final_header_key.
  rewrite Hstatic, Hnone. simpl.
  by destruct (includes headerKey (envSpecificHeaderKey E)).
Qed.

(** The loop over entries that do not write to [NAME_API_KEY_<ENV>] keeps
    the headers object free of that header, and leaves every header alone
    that no entry writes to. *)
Lemma resolveHeaders_no_convention (process_env : gmap string string)
      (E : EnvironmentType) (service : Service)
      (entries : list (string * EnvVarNames)) (h : gmap string string) :
  truthy_string (static_header service h (envSpecificHeaderKey E)) = false →
  lookup_own (default [] (headerEnvVars service)) (envSpecificHeaderKey E) = None →
  Forall (fun entry => final_header_key process_env E entry.1
                       ≠ envSpecificHeaderKey E) entries →
  truthy_string
    (static_header service
       (fold_left (resolveHeader process_env E service) entries h)
       (envSpecificHeaderKey E)) = false
  ∧ ∀ key,
      Forall (fun entry => final_header_key process_env E entry.1 ≠ key) entries →
      fold_left (resolveHeader process_env E service) entries h !! key = h !! key.
Proof.
  intros Hstatic Hnone Hnames. revert h Hstatic.
  induction Hnames as [|[headerKey envVarName] entries Hname Hnames IH];
    intros h Hstatic; cbn [fold_left]; [done|].
  rewrite (resolveHeader_no_convention _ _ _ _ _ _ Hstatic Hnone).
  destruct (IH (resolve_names process_env E
                  (final_header_key process_env E headerKey) envVarName h))
    as [Hkept Hother].
  { rewrite <- Hstatic. unfold static_header.
    destruct (headers service); [|done].
    by rewrite resolve_names_lookup_ne. }
  split; [done|]. intros key Hkey. inversion_clear Hkey as [|? ? Hhere Hrest].
  rewrite (Hother key Hrest). by apply resolve_names_lookup_ne.
Qed.

(** C7 (amended): take a descriptor that does not use the
    [NAME_API_KEY_<ENV>] convention: its literal headers hold no truthy
    [NAME_API_KEY_<ENV>] entry, and no entry of its [headerEnvVars] writes to
    the header [NAME_API_KEY_<ENV>] (none has that name, and none is renamed
    to it by an environment variable named like the header).  For a header
    of [headerEnvVars] whose value is a single variable name [N], resolution
    first probes [N_<ENV>] and uses its value if set; only otherwise it
    probes [N]; with neither set it leaves the headers as they are.  Unless
    a later entry writes to the same header, the resolved headers carry
    that value.  With [API_KEY_UAT="k1"], [API_KEY="k2"] and the environment
    UAT the header resolves to ["k1"]. *)
Theorem header_environment_override (process_env : gmap string string)
        (E : EnvironmentType) (service : Service)
        (before after : list (string * EnvVarNames)) (headerKey N : string) :
  headerEnvVars service = Some (before ++ (headerKey, VarName N) :: after)%list →
  truthy_string (headers service ≫= fun h => h !! envSpecificHeaderKey E) = false →
  Forall (fun entry => final_header_key process_env E entry.1
                       ≠ envSpecificHeaderKey E)
         (before ++ (headerKey, VarName N) :: after)%list →
  let finalHeaderKey := final_header_key process_env E headerKey in
  let specific := N ++ "_" ++ environment_name E in
  let h := fold_left (resolveHeader process_env E service) before
                     (default ∅ (headers service)) in
  resolveHeader process_env E service h (headerKey, VarName N)
  = (if env_set process_env specific
     then <[finalHeaderKey := env_value process_env specific]> h
     else if env_set process_env N
          then <[finalHeaderKey := env_value process_env N]> h
          else h)
  ∧ (Forall (fun entry => final_header_key process_env E entry.1 ≠ finalHeaderKey)
            after →
     (resolveHeaders process_env E service ≫= fun h => h !! finalHeaderKey)
     = (if env_set process_env specific then Some (env_value process_env specific)
        else if env_set process_env N then Some (env_value process_env N)
             else h !! finalHeaderKey))
  ∧ resolveHeaders uat_env UAT api_key_descriptor = Some {[ "X-API-Key" := "k1" ]}.
Proof.
  intros Hdeclared Hliteral Hnames finalHeaderKey specific h.
  assert (Hnone : lookup_own (default [] (headerEnvVars service))
                             (envSpecificHeaderKey E) = None).
  { rewrite Hdeclared. simpl. by apply (lookup_own_no_convention process_env). }
  assert (Hstart : truthy_string
                     (static_header service (default ∅ (headers service))
                                    (envSpecificHeaderKey E)) = false).
  { rewrite <- Hliteral. unfold static_header. by destruct (headers service). }
  apply Forall_app in Hnames as [Hbefore Hrest].
  apply Forall_cons in Hrest as [Hhere Hafter].
  destruct (resolveHeaders_no_convention process_env E service before _
              Hstart Hnone Hbefore) as [Hstatic _].
  fold h in Hstatic.
  assert (Hstep : resolveHeader process_env E service h (headerKey, VarName N)
                  = (if env_set process_env specific
                     then <[finalHeaderKey := env_value process_env specific]> h
                     else if env_set process_env N
                          then <[finalHeaderKey := env_value process_env N]> h
                          else h)).
  { by rewrite (resolveHeader_no_convention _ _ _ _ _ _ Hstatic Hnone). }
  split; [exact Hstep|]. split; [|by vm_compute].
  intros Hlater. unfold resolveHeaders. rewrite Hdeclared.
  rewrite fold_left_app. cbn [fold_left mbind option_bind]. fold h.
  assert (Hnext : truthy_string
                    (static_header service
                       (resolveHeader process_env E service h
                                      (headerKey, VarName N))
                       (envSpecificHeaderKey E)) = false).
  { apply (resolveHeaders_no_convention process_env E service
             [(headerKey, VarName N)] h Hstatic Hnone).
    by apply Forall_cons. }
  destruct (resolveHeaders_no_convention process_env E service after _
              Hnext Hnone Hafter) as [_ Hother].
  rewrite (Hother finalHeaderKey Hlater), Hstep.
  destruct (env_set process_env specific); [by rewrite lookup_insert_eq|].
  destruct (env_set process_env N); [by rewrite lookup_insert_eq|done].
Qed.

Lemma header_environment_override_witness :
  headerEnvVars api_key_descriptor
  = Some ([] ++ [("X-API-Key", VarName "API_KEY")])%list
  ∧ truthy_string (headers api_key_descriptor
                     ≫= fun h => h !! envSpecificHeaderKey UAT) = false
  ∧ final_header_key uat_env UAT "X-API-Key" ≠ envSpecificHeaderKey UAT
  ∧ resolveHeader uat_env UAT api_key_descriptor ∅ ("X-API-Key", VarName "API_KEY")
    = <["X-API-Key" := "k1"]> ∅
  ∧ (resolveHeaders uat_env UAT api_key_descriptor ≫= fun h => h !! "X-API-Key")
    = Some "k1".
Proof.
  assert (Hname : final_header_key uat_env UAT "X-API-Key"
                  ≠ envSpecificHeaderKey UAT) by discriminate.
  assert (Hnames : Forall (fun entry => final_header_key uat_env UAT entry.1
                                        ≠ envSpecificHeaderKey UAT)
                          ([] ++ [("X-API-Key", VarName "API_KEY")])%list)
    by (by constructor).
  assert (Hlater : Forall (fun entry : string * EnvVarNames =>
                             final_header_key uat_env UAT entry.1
                             ≠ final_header_key uat_env UAT "X-API-Key") [])
    by constructor.
  split; [reflexivity|]. split; [reflexivity|]. split; [exact Hname|].
  split.
  - exact (proj1 (header_environment_override uat_env UAT api_key_descriptor
                    [] [] "X-API-Key" "API_KEY" eq_refl eq_refl Hnames)).
  - exact (proj1 (proj2 (header_environment_override uat_env UAT
                           api_key_descriptor [] [] "X-API-Key" "API_KEY"
                           eq_refl eq_refl Hnames))
                 Hlater).
Defined.

(** ** Batch summary *)

(** A batch over the whole catalog returns a result as soon as the catalog
    loads. *)
Lemma checkAllServices_returns
      (process_env : gmap string string)
      (JSON_stringify ToString : value → string)
      (message_of : JsError → string)
      (catalog : list Service)
      (axios : Service → Result AxiosResponse)
      (soap_call : Service → Result value)
      (slug : string → string)
      (environment : option EnvironmentType)
      (disabledServicesList : gmap string bool) :
  ∃ results,
    checkAllServices process_env JSON_stringify ToString message_of (Ok catalog)
                     axios soap_call slug None environment disabledServicesList
    = Ok results.
Proof. unfold checkAllServices. simpl. eauto. Qed.

(** C9: in every batch result returned by [checkAllServices], [total] is
    the number of result rows, [success] is the number of rows whose status
    is [success], and [success + failed = total]. *)
Theorem summary_counters_consistent
        (process_env : gmap string string)
        (JSON_stringify ToString : value → string)
        (message_of : JsError → string)
        (load_services : Result (list Service))
        (axios : Service → Result AxiosResponse)
        (soap_call : Service → Result value)
        (slug : string → string)
        (serviceId : option string) (environment : option EnvironmentType)
        (disabledServicesList : gmap string bool) (results : CheckResults) :
  checkAllServices process_env JSON_stringify ToString message_of load_services
                   axios soap_call slug serviceId environment disabledServicesList
  = Ok results →
  total (summary results) = Z.of_nat (List.length (services results))
  ∧ success_count (summary results)
    = Z.of_nat (List.length
                  (List.filter (fun s => Status_eqb (result_status s) success)
                               (services results)))
  ∧ (success_count (summary results) + failed_count (summary results)
     = total (summary results))%Z
  ∧ (0 ≤ failed_count (summary results))%Z.
Proof.
  unfold checkAllServices.
  destruct (getServiceConfig _ _ _ _) as [config|e]; simpl; [|discriminate].
  destruct (truthy_string serviceId && _); [discriminate|].
  intros [= <-]. simpl.
  match goal with
  | |- context [List.filter (fun s => Status_eqb (result_status s) success) ?l] =>
      generalize l; intros rows
  end.
  pose proof (filter_length_le
                (fun s => Status_eqb (result_status s) success) rows).
  split; [done|]. split; [done|]. lia.
Qed.

Lemma summary_counters_consistent_witness :
  ∃ results,
    checkAllServices ∅ (fun _ => "") (fun _ => "") (fun _ => "")
                     (Ok [with_base_path descriptor "https://a.com" "health"])
                     (fun _ => Ok {| status := 200; data := JNull |})
                     (fun _ => Ok JNull) (fun name => name)
                     None (Some UAT) ∅
    = Ok results
    ∧ total (summary results) = 1%Z
    ∧ (success_count (summary results) + failed_count (summary results)
       = total (summary results))%Z.
Proof.
  eexists. split; [reflexivity|]. split; [reflexivity|].
  exact (proj1 (proj2 (proj2
           (summary_counters_consistent
              ∅ (fun _ => "") (fun _ => "") (fun _ => "")
              (Ok [with_base_path descriptor "https://a.com" "health"])
              (fun _ => Ok {| status := 200; data := JNull |})
              (fun _ => Ok JNull) (fun name => name)
              None (Some UAT) ∅ _ eq_refl)))).
Defined.

(** * Further properties of the validator *)

(** ** Induction on payloads *)

Lemma value_ind' (P : value → Prop) :
  P JUndefined → P JNull →
  (∀ b, P (JBool b)) → (∀ n, P (JNum n)) → (∀ s, P (JStr s)) →
  (∀ items, Forall P items → P (JArr items)) →
  (∀ entries, Forall (fun kv => P kv.2) entries → P (JObj entries)) →
  ∀ v, P v.
Proof.
  intros Hundef Hnull Hbool Hnum Hstr Harr Hobj.
  fix go 1. intros [| |b|n|s|items|entries].
  - exact Hundef.
  - exact Hnull.
  - apply Hbool.
  - apply Hnum.
  - apply Hstr.
  - apply Harr.
    exact ((fix go_items (l : list value) : Forall P l :=
              match l with
              | [] => @List.Forall_nil value P
              | x :: rest => @List.Forall_cons value P x rest (go x) (go_items rest)
              end) items).
  - apply Hobj.
    exact ((fix go_entries (l : list (string * value))
              : Forall (fun kv => P kv.2) l :=
              match l with
              | [] => @List.Forall_nil (string * value) (fun kv => P kv.2)
              | (k, x) :: rest =>
                  @List.Forall_cons (string * value) (fun kv => P kv.2) (k, x) rest
                               (go x) (go_entries rest)
              end) entries).
Qed.

Lemma get_elem_of (entries : list (string * value)) (key : string) :
  key ∈ keys entries → (key, get entries key) ∈ entries.
Proof.
  induction entries as [|[k v] rest IH]; simpl.
  - intros H. by apply not_elem_of_nil in H.
  - intros H. destruct (String.eqb k key) eqn:E.
    + apply String.eqb_eq in E as ->. left.
    + right. apply IH. apply elem_of_cons in H as [->|H]; [|done].
      by rewrite String.eqb_refl in E.
Qed.

Lemma get_absent (entries : list (string * value)) (key : string) :
  key ∉ keys entries → get entries key = JUndefined.
Proof.
  induction entries as [|[k v] rest IH]; simpl; [done|].
  intros H. apply not_elem_of_cons in H as [Hne H].
  rewrite (String_eqb_false k key) by done. by apply IH.
Qed.

(** ** The structure strategy is an equivalence on shapes *)

Lemma compareStructure_refl (v : value) : compareStructure v v = true.
Proof.
  induction v as [| | | | |items IH|entries IH] using value_ind'; try reflexivity.
  - apply compareStructure_array_iff. split; [done|].
    intros i x y Hx Hy. assert (x = y) as <- by congruence.
    rewrite Forall_forall in IH. apply IH. by eapply list_elem_of_lookup_2.
  - apply compareStructure_object_iff. split; [done|].
    intros key Hkey. rewrite Forall_forall in IH.
    apply (IH (key, get entries key)). by apply get_elem_of.
Qed.

Lemma compareStructure_sym_true (a : value) :
  ∀ b, compareStructure a b = true → compareStructure b a = true.
Proof.
  induction a as [| |b0|n0|s0|items IH|entries IH] using value_ind';
    intros b Hab; destruct b; try discriminate; try done.
  - apply compareStructure_array_iff in Hab as [Hlen Hall].
    apply compareStructure_array_iff. split; [done|].
    intros i y x Hy Hx. rewrite Forall_forall in IH.
    apply (IH x); [by eapply list_elem_of_lookup_2 | eauto].
  - apply compareStructure_object_iff in Hab as [Hperm Hall].
    apply compareStructure_object_iff. split; [done|].
    intros key Hkey. rewrite <- Hperm in Hkey.
    rewrite Forall_forall in IH.
    apply (IH (key, get entries key)); [by apply get_elem_of | by apply Hall].
Qed.

Lemma compareStructure_trans_true (a : value) :
  ∀ b c, compareStructure a b = true → compareStructure b c = true →
         compareStructure a c = true.
Proof.
  induction a as [| |b0|n0|s0|items IH|entries IH] using value_ind';
    intros b c Hab Hbc; destruct b; try discriminate;
    destruct c; try discriminate; try done.
  - apply compareStructure_array_iff in Hab as [Hlen1 Hall1].
    apply compareStructure_array_iff in Hbc as [Hlen2 Hall2].
    apply compareStructure_array_iff. split; [congruence|].
    intros i x z Hx Hz.
    destruct (items0 !! i) as [y|] eqn:Hy.
    + rewrite Forall_forall in IH.
      apply (IH x) with y; [by eapply list_elem_of_lookup_2 | eauto..].
    + apply lookup_ge_None in Hy. apply lookup_lt_Some in Hx. lia.
  - apply compareStructure_object_iff in Hab as [Hperm1 Hall1].
    apply compareStructure_object_iff in Hbc as [Hperm2 Hall2].
    apply compareStructure_object_iff. split; [by rewrite Hperm1|].
    intros key Hkey. rewrite Forall_forall in IH.
    apply (IH (key, get entries key)) with (get entries0 key);
      [by apply get_elem_of | by apply Hall1 |].
    apply Hall2. by rewrite <- Hperm1.
Qed.

(** X1: the structure strategy relates every value to itself and does not
    depend on which side is the response and which the expectation. *)
Theorem structure_strategy_reflexive_symmetric :
  (∀ v, compareStructure v v = true)
  ∧ (∀ a b, compareStructure a b = compareStructure b a).
Proof.
  split; [apply compareStructure_refl|].
  intros a b. destruct (compareStructure a b) eqn:Hab.
  - symmetry. by apply compareStructure_sym_true.
  - destruct (compareStructure b a) eqn:Hba; [|done].
    apply compareStructure_sym_true in Hba. congruence.
Qed.

(** X2: the structure strategy is transitive: a response matching an
    expectation also matches every value that this expectation matches. *)
Theorem structure_strategy_transitive (a b c : value) :
  compareStructure a b = true → compareStructure b c = true →
  compareStructure a c = true.
Proof. apply compareStructure_trans_true. Qed.

Lemma structure_strategy_transitive_witness :
  compareStructure (JObj [("a", JNum 1); ("b", JNull)])
                   (JObj [("b", JNull); ("a", JNum 2)]) = true
  ∧ compareStructure (JObj [("b", JNull); ("a", JNum 2)])
                     (JObj [("a", JNum 3); ("b", JNull)]) = true
  ∧ compareStructure (JObj [("a", JNum 1); ("b", JNull)])
                     (JObj [("a", JNum 3); ("b", JNull)]) = true.
Proof.
  split; [reflexivity|]. split; [reflexivity|].
  exact (structure_strategy_transitive
           (JObj [("a", JNum 1); ("b", JNull)])
           (JObj [("b", JNull); ("a", JNum 2)])
           (JObj [("a", JNum 3); ("b", JNull)]) eq_refl eq_refl).
Defined.

(** ** Patterns *)

Lemma matchesPattern_wildcard (v : value) : matchesPattern v (JStr "*") = true.
Proof. by destruct v. Qed.

Lemma matches_undefined_eq (pattern : value) :
  matches_undefined pattern = matchesPattern JUndefined pattern.
Proof. by destruct pattern. Qed.

Lemma matchesPattern_object (entries patternEntries : list (string * value)) :
  matchesPattern (JObj entries) (JObj patternEntries)
  = (List.length (sort (keys patternEntries)) =? List.length (sort (keys entries)))%nat
    && every_i (fun key index => String.eqb key (nth index (sort (keys entries)) ""))
               (sort (keys patternEntries)) 0
    && every (fun key => matchesPattern (get entries key) (get patternEntries key))
             (sort (keys patternEntries)).
Proof.
  simpl. destruct (_ =? _)%nat; simpl; [|done].
  destruct (every_i _ _ 0); simpl; [|done].
  apply every_ext. intros key. rewrite matches_undefined_eq.
  apply (at_key_get (fun v => matchesPattern v (get patternEntries key))).
Qed.

Lemma matchesPattern_object_iff (entries patternEntries : list (string * value)) :
  matchesPattern (JObj entries) (JObj patternEntries) = true
  ↔ keys patternEntries ≡ₚ keys entries
    ∧ ∀ key, key ∈ keys patternEntries →
             matchesPattern (get entries key) (get patternEntries key) = true.
Proof.
  rewrite matchesPattern_object, andb_true_iff, same_keys_check, sort_eq_iff,
    every_spec.
  split; intros [Hkeys Hall]; (split; [done|]); intros key Hkey; apply Hall.
  - by rewrite sort_Permutation.
  - by rewrite sort_Permutation in Hkey.
Qed.

(** The pattern of an array expectation keeps its length only. *)
Lemma matchesPattern_array (items expectedItems : list value) :
  matchesPattern (JArr items) (createPattern (JArr expectedItems))
  = (List.length items =? List.length expectedItems)%nat.
Proof.
  simpl. rewrite length_map.
  destruct (List.length items =? List.length expectedItems)%nat eqn:Hlen;
    simpl; [|done].
  apply Nat.eqb_eq in Hlen. apply every_i_spec. intros j x Hj. simpl.
  unfold array_get. rewrite nth_lookup, list_lookup_fmap.
  destruct (expectedItems !! j) eqn:He; simpl.
  - apply matchesPattern_wildcard.
  - apply lookup_ge_None in He. apply lookup_lt_Some in Hj. lia.
Qed.

Lemma assign_fresh {B} (entries : list (string * B)) (key : string) (x : B) :
  key ∉ map fst entries → assign entries key x = (entries ++ [(key, x)])%list.
Proof.
  induction entries as [|[k y] rest IH]; simpl; [done|].
  intros H. apply not_elem_of_cons in H as [Hne H].
  rewrite (String_eqb_false k key) by done. by rewrite IH.
Qed.

(** Over distinct keys, none of them [__proto__], the [forEach] loop lists
    one property per key, in order. *)
Lemma forEach_distinct {B} (F : string → B) (ks : list string)
      (acc : list (string * B)) :
  NoDup (map fst acc ++ ks) → "__proto__" ∉ ks →
  fold_left (fun table key => set_property table key (F key)) ks acc
  = (acc ++ map (fun key => (key, F key)) ks)%list.
Proof.
  revert acc. induction ks as [|key ks IH]; intros acc Hnd Hproto; simpl.
  - by rewrite app_nil_r.
  - apply not_elem_of_cons in Hproto as [Hne Hproto].
    unfold set_property at 2.
    rewrite (String_eqb_false key "__proto__") by done.
    apply NoDup_app in Hnd as (Hacc & Hdisj & Hks).
    apply NoDup_cons in Hks as [Hkey Hks].
    rewrite assign_fresh by (intros Hin; apply (Hdisj key Hin); left).
    rewrite IH; [by rewrite <- app_assoc|..|done].
    rewrite map_app. simpl. rewrite <- app_assoc. simpl.
    apply NoDup_app. split; [done|]. split; [|by apply NoDup_cons].
    intros k Hk Hin. by apply (Hdisj k Hk).
Qed.

Lemma createPattern_object (entries : list (string * value)) :
  createPattern (JObj entries)
  = JObj (fold_left (fun pattern key =>
                       set_property pattern key (createPattern (get entries key)))
                    (keys entries) []).
Proof.
  simpl. f_equal. apply forEach_ext. intros pattern key. f_equal.
  apply (at_key_get createPattern).
Qed.

Lemma get_map_keys (F : string → value) (ks : list string) (key : string) :
  key ∈ ks → get (map (fun k => (k, F k)) ks) key = F key.
Proof.
  induction ks as [|k ks IH]; simpl.
  - intros H. by apply not_elem_of_nil in H.
  - intros H. destruct (String.eqb k key) eqn:E.
    + by apply String.eqb_eq in E as ->.
    + apply IH. apply elem_of_cons in H as [->|H]; [|done].
      by rewrite String.eqb_refl in E.
Qed.

Lemma has_own_false (entries : list (string * value)) (key : string) :
  has_own entries key = false ↔ key ∉ keys entries.
Proof.
  rewrite <- has_own_spec. by destruct (has_own entries key).
Qed.

Lemma createPattern_ordinary (entries : list (string * value)) :
  NoDup (keys entries) → has_own entries "__proto__" = false →
  createPattern (JObj entries)
  = JObj (map (fun key => (key, createPattern (get entries key))) (keys entries)).
Proof.
  intros Hnd Hproto. rewrite createPattern_object.
  rewrite (forEach_distinct (fun key => createPattern (get entries key)));
    [done | done | by apply has_own_false].
Qed.

Lemma ordinary_keys_object (entries : list (string * value)) :
  ordinary_keys (JObj entries) = true →
  NoDup (keys entries) ∧ has_own entries "__proto__" = false
  ∧ ∀ key, key ∈ keys entries → ordinary_keys (get entries key) = true.
Proof.
  simpl. rewrite !andb_true_iff, bool_decide_eq_true, negb_true_iff, forallb_forall.
  intros [[Hnd Hproto] Hall]. split; [done|]. split; [done|].
  intros key Hkey. apply (Hall (key, get entries key)).
  apply list_elem_of_In. by apply get_elem_of.
Qed.

Lemma structure_implies_pattern (actual : value) :
  ∀ expected,
    ordinary_keys expected = true →
    compareStructure actual expected = true →
    matchesPattern actual (createPattern expected) = true.
Proof.
  induction actual as [| |b0|n0|s0|items IH|entries IH] using value_ind';
    intros expected Hord Hcmp; destruct expected as [| |b|n|s|items'|entries'];
    try discriminate; try done.
  - rewrite matchesPattern_array.
    apply compareStructure_array_iff in Hcmp as [Hlen _]. by apply Nat.eqb_eq.
  - apply ordinary_keys_object in Hord as (Hnd & Hproto & Hsub).
    rewrite createPattern_ordinary by done.
    apply compareStructure_object_iff in Hcmp as [Hperm Hall].
    apply matchesPattern_object_iff.
    assert (Hkeys : keys (map (fun key => (key, createPattern (get entries' key)))
                              (keys entries')) = keys entries').
    { unfold keys. rewrite map_map. simpl. apply map_id. }
    rewrite Hkeys. split; [done|].
    intros key Hkey. rewrite get_map_keys by done.
    rewrite Forall_forall in IH.
    apply (IH (key, get entries key)).
    + apply get_elem_of. by rewrite Hperm.
    + by apply Hsub.
    + apply Hall. by rewrite Hperm.
Qed.

(** X3: whatever the structure strategy accepts, the pattern strategy
    accepts too, for an expectation whose objects have distinct keys other
    than [__proto__]. *)
Theorem structure_match_is_pattern_match (actual expected : value) :
  ordinary_keys expected = true →
  compareStructure actual expected = true →
  matchesPattern actual (createPattern expected) = true.
Proof. apply structure_implies_pattern. Qed.

Lemma structure_match_is_pattern_match_witness :
  ordinary_keys (JObj [("a", JNum 99); ("b", JArr [JNum 7; JNum 8])]) = true
  ∧ compareStructure (JObj [("b", JArr [JNum 1; JNum 2]); ("a", JNum 1)])
                     (JObj [("a", JNum 99); ("b", JArr [JNum 7; JNum 8])]) = true
  ∧ matchesPattern (JObj [("b", JArr [JNum 1; JNum 2]); ("a", JNum 1)])
                   (createPattern (JObj [("a", JNum 99); ("b", JArr [JNum 7; JNum 8])]))
    = true.
Proof.
  split; [reflexivity|]. split; [reflexivity|].
  exact (structure_match_is_pattern_match
           (JObj [("b", JArr [JNum 1; JNum 2]); ("a", JNum 1)])
           (JObj [("a", JNum 99); ("b", JArr [JNum 7; JNum 8])])
           eq_refl eq_refl).
Defined.

(** ** Responses that do not shadow [hasOwnProperty] *)

Section total_callbacks.
Context {A : Type}.

Lemma every_r_i_total (f : A → nat → Result bool) (l : list A) (i0 : nat) :
  (∀ j x, l !! j = Some x → ∃ b, f x (i0 + j) = Ok b) →
  ∃ b, every_r_i f l i0 = Ok b.
Proof.
  revert i0. induction l as [|a l IH]; intros i0 Hf; simpl; [eauto|].
  destruct (Hf 0 a eq_refl) as [b Hb]. rewrite Nat.add_0_r in Hb. rewrite Hb.
  destruct b; [|eauto]. apply IH. intros j x Hj.
  rewrite Nat.add_succ_comm. by apply (Hf (S j)).
Qed.

Lemma every_r_total (f : A → Result bool) (l : list A) :
  (∀ x, x ∈ l → ∃ b, f x = Ok b) → ∃ b, every_r f l = Ok b.
Proof.
  intros Hf. apply every_r_i_total. intros j x Hj. apply Hf.
  by eapply list_elem_of_lookup_2.
Qed.

Lemma some_r_total (f : A → Result bool) (l : list A) :
  (∀ x, x ∈ l → ∃ b, f x = Ok b) → ∃ b, some_r f l = Ok b.
Proof.
  induction l as [|a l IH]; intros Hf; simpl; [eauto|].
  destruct (Hf a) as [b Hb]; [left|]. rewrite Hb.
  destruct b; [eauto|]. apply IH. intros x Hx. apply Hf. by right.
Qed.
End total_callbacks.

Lemma no_shadowing_object (entries : list (string * value)) :
  no_shadowing (JObj entries) = true →
  has_own entries "hasOwnProperty" = false
  ∧ ∀ key, no_shadowing (get entries key) = true.
Proof.
  simpl. rewrite andb_true_iff, negb_true_iff, forallb_forall.
  intros [Hown Hall]. split; [done|]. intros key.
  destruct (decide (key ∈ keys entries)) as [Hin|Hout].
  - apply (Hall (key, get entries key)). apply list_elem_of_In.
    by apply get_elem_of.
  - by rewrite get_absent.
Qed.

Lemma no_shadowing_array (items : list value) :
  no_shadowing (JArr items) = true →
  (∀ item, item ∈ items → no_shadowing item = true)
  ∧ ∀ index, no_shadowing (array_get items index) = true.
Proof.
  simpl. rewrite forallb_forall. intros Hall.
  assert (Hin : ∀ item, item ∈ items → no_shadowing item = true).
  { intros item Hitem. apply Hall. by apply list_elem_of_In. }
  split; [done|]. intros index. unfold array_get. rewrite nth_lookup.
  destruct (items !! index) eqn:Hi; simpl; [|done].
  apply Hin. by eapply list_elem_of_lookup_2.
Qed.

Lemma hasOwnProperty_plain (entries : list (string * value)) (key : string) :
  has_own entries "hasOwnProperty" = false →
  hasOwnProperty entries key = Ok (has_own entries key).
Proof. unfold hasOwnProperty. by intros ->. Qed.

Lemma validateSchema_total (obj : value) :
  no_shadowing obj = true → ∀ schema, ∃ b, validateSchema obj schema = Ok b.
Proof.
  induction obj as [| |b0|n0|s0|items IH|entries IH] using value_ind';
    intros Hplain schema; destruct schema as [|sub|properties required|t];
    simpl; eauto.
  - apply no_shadowing_array in Hplain as [Hitems _].
    apply every_r_total. intros item Hitem.
    rewrite Forall_forall in IH. by apply IH; [|apply Hitems].
  - change (∃ b, validateSchema (JObj entries) (SObject properties required) = Ok b).
    rewrite validateSchema_object.
    apply no_shadowing_object in Hplain as [Hown Hsub].
    destruct (every_r_total (fun key => hasOwnProperty entries key) required)
      as [present Hpresent].
    { intros key _. rewrite hasOwnProperty_plain by done. eauto. }
    rewrite Hpresent. simpl. destruct present; simpl; [|eauto].
    destruct (negb _); [eauto|].
    apply every_r_total. intros key Hkey.
    destruct (lookup_own properties key) as [s|]; [|eauto].
    rewrite Forall_forall in IH.
    apply (IH (key, get entries key)); [by apply get_elem_of | apply Hsub].
Qed.

Lemma compare_object (options : FlexibleOptions)
      (actualEntries expectedEntries : list (string * value)) :
  compare options (JObj actualEntries) (JObj expectedEntries)
  = if negb (allowExtraFields options)
       && negb (List.length (keys expectedEntries)
                =? List.length (keys actualEntries))%nat
    then Ok false
    else every_r (fun key =>
                    let* own := hasOwnProperty actualEntries key in
                    if negb own then Ok false
                    else compare options (get actualEntries key)
                                 (get expectedEntries key))
                 (keys expectedEntries).
Proof.
  simpl. destruct (_ && _); [done|].
  apply every_r_ext. intros key.
  destruct (hasOwnProperty actualEntries key) as [[|]|]; simpl; try done.
  apply (at_key_get (fun e => compare options (get actualEntries key) e)).
Qed.

Lemma compare_total (options : FlexibleOptions) (expected : value) :
  ∀ actual, no_shadowing actual = true →
            ∃ b, compare options actual expected = Ok b.
Proof.
  induction expected as [| |b0|n0|s0|items IH|entries IH] using value_ind';
    intros actual Hplain;
    try (destruct actual; simpl; eauto; fail).
  - destruct actual as [| | | | |actualItems|]; simpl; eauto.
    apply no_shadowing_array in Hplain as [Hitems Hget].
    rewrite Forall_forall in IH.
    destruct (ignoreArrayOrder options);
      (destruct (negb _); [eauto|]).
    + apply every_r_total. intros e He. apply some_r_total.
      intros a Ha. apply IH; [done | by apply Hitems].
    + apply every_r_i_total. intros j e Hj.
      apply IH; [by eapply list_elem_of_lookup_2 | apply Hget].
  - destruct actual as [| | | | | |actualEntries]; try (simpl; eauto; fail).
    rewrite compare_object.
    apply no_shadowing_object in Hplain as [Hown Hsub].
    destruct (_ && _); [eauto|].
    apply every_r_total. intros key Hkey.
    rewrite hasOwnProperty_plain by done. simpl.
    destruct (negb _); [eauto|].
    rewrite Forall_forall in IH.
    apply (IH (key, get entries key)); [by apply get_elem_of | apply Hsub].
Qed.

Lemma validateRestResponse_plain (service : Service)
        (response : AxiosResponse) :
  truthy (expectedContent service) = true →
  no_shadowing (data response) = true →
  let actual := data response in
  let expected := expectedContent service in
  let status_ok :=
    negb (truthy_number (expectedStatus service))
    || bool_decide (Some (status response) = expectedStatus service) in
  ∃ valid flexible,
    validateSchema actual (generateSchema expected) = Ok valid
    ∧ compareFlexible actual expected rest_options = Ok flexible
    ∧ validateRestResponse service (Some response)
      = Ok (status_ok
            && (compareStructure actual expected || valid
                || matchesPattern actual (createPattern expected) || flexible)).
Proof.
  intros Htruthy Hplain actual expected status_ok.
  destruct (validateSchema_total actual Hplain (generateSchema expected))
    as [valid Hvalid].
  destruct (compare_total rest_options expected actual Hplain)
    as [flexible Hflexible].
  exists valid, flexible. split; [done|]. split; [done|].
  unfold validateRestResponse, run_strategies. rewrite Htruthy. simpl.
  fold actual expected. unfold compareFlexible. rewrite Hvalid, Hflexible.
  subst status_ok.
  destruct (truthy_number (expectedStatus service)); simpl;
    [destruct (bool_decide (Some (status response) = expectedStatus service));
     simpl; [|done]|];
    destruct (compareStructure actual expected); simpl; try done;
    destruct valid; simpl; try done;
    destruct (matchesPattern actual (createPattern expected)); simpl; try done;
    destruct flexible; simpl; try done;
    destruct (log_Object_keys actual); simpl; try done;
    by destruct (log_Object_keys expected).
Qed.


(** X4: when no object of the response has an own property named
    [hasOwnProperty], no strategy throws, and the verdict for a declared
    expectation is the status check together with the disjunction of the
    four strategies. *)
Theorem verdict_is_disjunction_of_strategies (service : Service)
        (response : AxiosResponse) :
  truthy (expectedContent service) = true →
  no_shadowing (data response) = true →
  let actual := data response in
  let expected := expectedContent service in
  let status_ok :=
    negb (truthy_number (expectedStatus service))
    || bool_decide (Some (status response) = expectedStatus service) in
  ∃ valid flexible,
    validateSchema actual (generateSchema expected) = Ok valid
    ∧ compareFlexible actual expected rest_options = Ok flexible
    ∧ validateRestResponse service (Some response)
      = Ok (status_ok
            && (compareStructure actual expected || valid
                || matchesPattern actual (createPattern expected) || flexible)).
Proof. exact (validateRestResponse_plain service response). Qed.

Lemma verdict_is_disjunction_of_strategies_witness :
  truthy (JObj [("a", JNum 1)]) = true
  ∧ no_shadowing (JObj [("a", JStr "x"); ("extra", JNull)]) = true
  ∧ ∃ valid flexible,
      validateSchema (JObj [("a", JStr "x"); ("extra", JNull)])
                     (generateSchema (JObj [("a", JNum 1)])) = Ok valid
      ∧ compareFlexible (JObj [("a", JStr "x"); ("extra", JNull)])
                        (JObj [("a", JNum 1)]) rest_options = Ok flexible
      ∧ validateRestResponse
          (with_expectedContent descriptor (JObj [("a", JNum 1)]))
          (Some {| status := 200;
                   data := JObj [("a", JStr "x"); ("extra", JNull)] |})
        = Ok (true
              && (compareStructure (JObj [("a", JStr "x"); ("extra", JNull)])
                                   (JObj [("a", JNum 1)])
                  || valid
                  || matchesPattern (JObj [("a", JStr "x"); ("extra", JNull)])
                                    (createPattern (JObj [("a", JNum 1)]))
                  || flexible)).
Proof.
  split; [reflexivity|]. split; [reflexivity|].
  exact (verdict_is_disjunction_of_strategies
           (with_expectedContent descriptor (JObj [("a", JNum 1)]))
           {| status := 200; data := JObj [("a", JStr "x"); ("extra", JNull)] |}
           eq_refl eq_refl).
Defined.

Lemma validateSchema_type (v : value) (t : string) :
  validateSchema v (SType t) = Ok (String.eqb (typeof v) t).
Proof. by destruct v. Qed.

(** X5: a declared expectation that is a primitive (a non-empty string, a
    non-zero number, [true]) constrains nothing: every response body passes,
    and the verdict is that of the status check alone. *)
Theorem primitive_expectation_accepts_every_body (service : Service)
        (response : AxiosResponse) :
  is_primitive (expectedContent service) = true →
  truthy (expectedContent service) = true →
  validateRestResponse service (Some response)
  = Ok (negb (truthy_number (expectedStatus service))
        || bool_decide (Some (status response) = expectedStatus service)).
Proof.
  intros Hprim Htruthy.
  unfold validateRestResponse, run_strategies. rewrite Htruthy. simpl.
  assert (Hschema : generateSchema (expectedContent service)
                    = SType (typeof (expectedContent service))).
  { by destruct (expectedContent service). }
  assert (Hpattern : createPattern (expectedContent service) = JStr "*").
  { by destruct (expectedContent service). }
  rewrite Hschema, Hpattern, validateSchema_type, matchesPattern_wildcard.
  simpl.
  destruct (truthy_number (expectedStatus service)); simpl;
    [destruct (bool_decide (Some (status response) = expectedStatus service));
     simpl; [|done]|];
    destruct (compareStructure _ _); simpl; try done;
    by destruct (String.eqb _ _).
Qed.

Lemma primitive_expectation_accepts_every_body_witness :
  is_primitive (JStr "userId") = true
  ∧ truthy (JStr "userId") = true
  ∧ validateRestResponse (with_expectedContent descriptor (JStr "userId"))
                         (Some {| status := 500; data := JNull |})
    = Ok true.
Proof.
  split; [reflexivity|]. split; [reflexivity|].
  exact (primitive_expectation_accepts_every_body
           (with_expectedContent descriptor (JStr "userId"))
           {| status := 500; data := JNull |} eq_refl eq_refl).
Defined.

(** X6: against an array expectation the pattern strategy compares lengths
    only, so an array response of the expected length that does not shadow
    [hasOwnProperty] passes validation whatever its elements are (status
    check permitting). *)
Theorem array_expectation_checks_length_only (service : Service)
        (response : AxiosResponse) (items expectedItems : list value) :
  expectedContent service = JArr expectedItems →
  data response = JArr items →
  no_shadowing (JArr items) = true →
  matchesPattern (JArr items) (createPattern (JArr expectedItems))
  = (List.length items =? List.length expectedItems)%nat
  ∧ (List.length items = List.length expectedItems →
     validateRestResponse service (Some response)
     = Ok (negb (truthy_number (expectedStatus service))
           || bool_decide (Some (status response) = expectedStatus service))).
Proof.
  intros Hexpected Hdata Hplain. split; [apply matchesPattern_array|].
  intros Hlen.
  destruct (validateRestResponse_plain service response)
    as (valid & flexible & _ & _ & ->).
  { by rewrite Hexpected. }
  { by rewrite Hdata. }
  rewrite Hexpected, Hdata, matchesPattern_array.
  apply Nat.eqb_eq in Hlen. rewrite Hlen.
  by rewrite orb_true_r, andb_true_r.
Qed.

Lemma array_expectation_checks_length_only_witness :
  expectedContent (with_expectedContent descriptor (JArr [JObj [("id", JNum 1)]]))
  = JArr [JObj [("id", JNum 1)]]
  ∧ no_shadowing (JArr [JStr "anything"]) = true
  ∧ List.length [JStr "anything"] = List.length [JObj [("id", JNum 1)]]
  ∧ validateRestResponse
      (with_expectedContent descriptor (JArr [JObj [("id", JNum 1)]]))
      (Some {| status := 200; data := JArr [JStr "anything"] |})
    = Ok true.
Proof.
  split; [reflexivity|]. split; [reflexivity|]. split; [reflexivity|].
  exact (proj2 (array_expectation_checks_length_only
                  (with_expectedContent descriptor (JArr [JObj [("id", JNum 1)]]))
                  {| status := 200; data := JArr [JStr "anything"] |}
                  [JStr "anything"] [JObj [("id", JNum 1)]]
                  eq_refl eq_refl eq_refl) eq_refl).
Defined.

(** ** Flexible comparison and extra fields *)

Lemma has_own_app (entries extra : list (string * value)) (key : string) :
  has_own (entries ++ extra) key = has_own entries key || has_own extra key.
Proof. unfold has_own, keys. by rewrite map_app, existsb_app. Qed.

Lemma get_app_own (entries extra : list (string * value)) (key : string) :
  has_own entries key = true → get (entries ++ extra) key = get entries key.
Proof.
  induction entries as [|[k v] rest IH]; simpl; [done|].
  unfold has_own. simpl. rewrite (String.eqb_sym key k).
  destruct (String.eqb k key); [done|]. apply IH.
Qed.

(** X7: in the flexible comparison, an object that matches an object
    expectation has exactly as many keys as the expectation unless
    [allowExtraFields] is set; with [allowExtraFields] set it still matches
    after any further properties are added to it, provided none of them is
    named [hasOwnProperty]. *)
Theorem flexible_extra_fields (options : FlexibleOptions)
        (actual extra expected : list (string * value)) :
  compare options (JObj actual) (JObj expected) = Ok true →
  (allowExtraFields options = false →
   List.length (keys actual) = List.length (keys expected))
  ∧ (allowExtraFields options = true →
     has_own extra "hasOwnProperty" = false →
     compare options (JObj (actual ++ extra)) (JObj expected) = Ok true).
Proof.
  rewrite compare_object. intros Hmatch. split.
  - intros Hstrict. rewrite Hstrict in Hmatch. simpl in Hmatch.
    destruct (_ =? _)%nat eqn:Hlen; [|discriminate].
    by apply Nat.eqb_eq in Hlen.
  - intros Hallow Hextra. rewrite compare_object.
    rewrite Hallow in Hmatch |- *. simpl in Hmatch |- *.
    apply every_r_spec. intros key Hkey.
    pose proof (proj1 (every_r_spec _ _) Hmatch key Hkey) as Hk. simpl in Hk.
    unfold hasOwnProperty in Hk |- *. rewrite has_own_app, Hextra, orb_false_r.
    destruct (has_own actual "hasOwnProperty"); [discriminate|]. simpl in Hk |- *.
    rewrite has_own_app.
    destruct (has_own actual key) eqn:Hown; simpl in Hk |- *; [|discriminate].
    by rewrite get_app_own.
Qed.

Lemma flexible_extra_fields_witness :
  compare {| ignoreArrayOrder := false; allowExtraFields := true;
             typeStrict := false |}
          (JObj [("a", JNum 1)]) (JObj [("a", JNum 2)]) = Ok true
  ∧ has_own [("extra", JBool true)] "hasOwnProperty" = false
  ∧ compare {| ignoreArrayOrder := false; allowExtraFields := true;
               typeStrict := false |}
            (JObj ([("a", JNum 1)] ++ [("extra", JBool true)])%list)
            (JObj [("a", JNum 2)]) = Ok true.
Proof.
  split; [reflexivity|]. split; [reflexivity|].
  exact (proj2 (flexible_extra_fields
                  {| ignoreArrayOrder := false; allowExtraFields := true;
                     typeStrict := false |}
                  [("a", JNum 1)] [("extra", JBool true)] [("a", JNum 2)]
                  eq_refl) eq_refl eq_refl).
Defined.

(** ** Status precondition *)

(** X8: a declared (non-zero) [expectedStatus] that differs from the
    response status fails validation whatever the body and the expectation
    are; and without a declared (truthy) [expectedContent] the verdict is
    exactly the status check, the body being ignored. *)
Theorem status_check_precedes_content (service : Service)
        (response : AxiosResponse) :
  (truthy_number (expectedStatus service) = true →
   Some (status response) ≠ expectedStatus service →
   validateRestResponse service (Some response) = Ok false)
  ∧ (truthy (expectedContent service) = false →
     validateRestResponse service (Some response)
     = Ok (negb (truthy_number (expectedStatus service))
           || bool_decide (Some (status response) = expectedStatus service))).
Proof.
  unfold validateRestResponse. split.
  - intros -> Hne. simpl. by rewrite bool_decide_eq_false_2.
  - intros ->. simpl.
    destruct (truthy_number (expectedStatus service)); simpl; [|done].
    by destruct (bool_decide _).
Qed.

Lemma status_check_precedes_content_witness :
  truthy_number (Some 200%Z) = true
  ∧ Some 404%Z ≠ Some 200%Z
  ∧ validateRestResponse
      {| id := "svc"; name := "Sample service"; type := REST; enabled := None;
         url := None; baseUrl := None; path := None; urlEnvVar := None;
         baseUrlEnvVar := None; environmentUrls := None; headers := None;
         headerEnvVars := None; expectedContent := JObj [("ok", JBool true)];
         environment := None; expectedStatus := Some 200%Z |}
      (Some {| status := 404; data := JObj [("ok", JBool true)] |})
    = Ok false.
Proof.
  split; [reflexivity|]. split; [discriminate|].
  exact (proj1 (status_check_precedes_content
                  {| id := "svc"; name := "Sample service"; type := REST;
                     enabled := None; url := None; baseUrl := None;
                     path := None; urlEnvVar := None; baseUrlEnvVar := None;
                     environmentUrls := None; headers := None;
                     headerEnvVars := None;
                     expectedContent := JObj [("ok", JBool true)];
                     environment := None; expectedStatus := Some 200%Z |}
                  {| status := 404; data := JObj [("ok", JBool true)] |})
               eq_refl ltac:(discriminate)).
Defined.

(** * Further properties of SOAP validation *)

(** X9: the fault check reads properties of the response, so it only sees an
    object.  For a string response (the raw XML of a request sent with
    [xmlBody]) the verdict is the [expectedContent] check alone, whatever
    the text contains; an [undefined] response always raises a [TypeError],
    and a [null] response raises it unless the [expectedContent] check has
    already failed. *)
Theorem soap_non_object_responses (JSON_stringify ToString : value → string)
        (service : Service) :
  (∀ xml,
     validateSoapResponse JSON_stringify ToString service (JStr xml)
     = Ok (negb (truthy (expectedContent service))
           || includes (JSON_stringify (JStr xml))
                       (ToString (expectedContent service))))
  ∧ validateSoapResponse JSON_stringify ToString service JUndefined
    = Throw TypeError
  ∧ validateSoapResponse JSON_stringify ToString service JNull
    = if negb (truthy (expectedContent service))
         || includes (JSON_stringify JNull) (ToString (expectedContent service))
      then Throw TypeError
      else Ok false.
Proof.
  unfold validateSoapResponse. repeat split; [intros xml|..]; simpl;
    destruct (truthy (expectedContent service)); simpl; try done;
    by destruct (includes _ _).
Qed.

(** * Further properties of the resolver *)

(** ** Candidate lists of a header *)

Lemma first_set_hit (process_env : gmap string string) (names : list string)
      (suffix : string) (i : nat) (name : string) :
  names !! i = Some name →
  env_set process_env (name ++ suffix) = true →
  (∀ j n, j < i → names !! j = Some n → env_set process_env (n ++ suffix) = false) →
  first_set process_env names suffix = Some (env_value process_env (name ++ suffix)).
Proof.
  revert i. induction names as [|n0 names IH]; intros i Hi Hset Hbefore.
  - by destruct i.
  - destruct i as [|i]; simpl in *.
    + injection Hi as ->. by rewrite Hset.
    + rewrite (Hbefore 0 n0) by (done || lia).
      apply (IH i); [done..|].
      intros j n Hj Hn. apply (Hbefore (S j)); [lia | done].
Qed.

Lemma first_set_miss (process_env : gmap string string) (names : list string)
      (suffix : string) :
  (∀ n, n ∈ names → env_set process_env (n ++ suffix) = false) →
  first_set process_env names suffix = None.
Proof.
  induction names as [|n0 names IH]; intros Hnone; simpl; [done|].
  rewrite Hnone by left. apply IH. intros n Hn. apply Hnone. by right.
Qed.

Lemma append_empty (s : string) : s ++ "" = s.
Proof.
  induction s as [|c s IH]; [done|].
  change (String c s ++ "") with (String c (s ++ "")). by rewrite IH.
Qed.

Lemma resolveHeader_plain (process_env : gmap string string)
      (E : EnvironmentType) (service : Service) (h : gmap string string)
      (headerKey : string) (envVarName : EnvVarNames) :
  truthy_string (static_header service h (envSpecificHeaderKey E)) = false →
  (includes headerKey (envSpecificHeaderKey E) = true
   ∨ ∀ n, lookup_own (default [] (headerEnvVars service)) (envSpecificHeaderKey E)
          = Some (VarName n) →
          env_set process_env n = false) →
  resolveHeader process_env E service h (headerKey, envVarName)
  = resolve_names process_env E
      (if includes headerKey (envSpecificHeaderKey E) then headerKey
       else if env_set process_env headerKey then env_value process_env headerKey
            else headerKey)
      envVarName h.
Proof.
  intros Hstatic Hlegacy. unfold resolveHeader. rewrite Hstatic.
  destruct (includes headerKey (envSpecificHeaderKey E)) eqn:Hincl; [done|].
  destruct Hlegacy as [?|Hlegacy]; [done|].
  destruct (lookup_own _ (envSpecificHeaderKey E)) as [[n|names]|]; simpl;
    try done.
  rewrite (Hlegacy n eq_refl). by destruct (negb _).
Qed.

(** X10: for a header whose [headerEnvVars] value is a list of candidate
    names, processed while neither [NAME_API_KEY_<ENV>] convention is in
    force: the first candidate in list order whose environment-specific
    variable [<name>_<ENV>] is set gives the value, even if a plain variable
    of this or an earlier candidate is set; when no environment-specific
    variable of any candidate is set, the first candidate whose plain
    variable is set gives the value; when none is set the headers are left
    as they are. *)
Theorem header_candidates_in_order (process_env : gmap string string)
        (E : EnvironmentType) (service : Service) (h : gmap string string)
        (headerKey : string) (names : list string) :
  truthy_string (static_header service h (envSpecificHeaderKey E)) = false →
  (includes headerKey (envSpecificHeaderKey E) = true
   ∨ ∀ n, lookup_own (default [] (headerEnvVars service)) (envSpecificHeaderKey E)
          = Some (VarName n) →
          env_set process_env n = false) →
  let suffix := "_" ++ environment_name E in
  let finalHeaderKey :=
    if includes headerKey (envSpecificHeaderKey E) then headerKey
    else if env_set process_env headerKey then env_value process_env headerKey
         else headerKey in
  (∀ i name,
     names !! i = Some name →
     env_set process_env (name ++ suffix) = true →
     (∀ j n, j < i → names !! j = Some n →
             env_set process_env (n ++ suffix) = false) →
     resolveHeader process_env E service h (headerKey, VarNames names)
     = <[finalHeaderKey := env_value process_env (name ++ suffix)]> h)
  ∧ (∀ i name,
       (∀ n, n ∈ names → env_set process_env (n ++ suffix) = false) →
       names !! i = Some name →
       env_set process_env name = true →
       (∀ j n, j < i → names !! j = Some n → env_set process_env n = false) →
       resolveHeader process_env E service h (headerKey, VarNames names)
       = <[finalHeaderKey := env_value process_env name]> h)
  ∧ ((∀ n, n ∈ names →
           env_set process_env (n ++ suffix) = false
           ∧ env_set process_env n = false) →
     resolveHeader process_env E service h (headerKey, VarNames names) = h).
Proof.
  intros Hstatic Hlegacy suffix finalHeaderKey.
  rewrite (resolveHeader_plain _ _ _ _ _ _ Hstatic Hlegacy).
  fold finalHeaderKey. unfold resolve_names. fold suffix.
  split; [|split].
  - intros i name Hi Hset Hbefore.
    by rewrite (first_set_hit _ _ _ i name).
  - intros i name Hnone Hi Hset Hbefore.
    rewrite first_set_miss by done.
    pose proof (first_set_hit process_env names "" i name Hi) as Hhit.
    rewrite append_empty in Hhit. rewrite Hhit; [done | done |].
    intros j n Hj Hn. rewrite append_empty. eauto.
  - intros Hnone.
    rewrite first_set_miss by (intros n Hn; by destruct (Hnone n Hn)).
    rewrite first_set_miss; [done|].
    intros n Hn. rewrite append_empty. by destruct (Hnone n Hn).
Qed.

Lemma header_candidates_in_order_witness :
  truthy_string (static_header descriptor ∅ (envSpecificHeaderKey UAT)) = false
  ∧ [ "NAME_API_KEY"; "API_KEY" ] !! 1 = Some "API_KEY"
  ∧ env_set uat_env ("API_KEY" ++ "_UAT") = true
  ∧ env_set uat_env ("NAME_API_KEY" ++ "_UAT") = false
  ∧ resolveHeader uat_env UAT descriptor ∅
      ("NAME-API-Key", VarNames ["NAME_API_KEY"; "API_KEY"])
    = <["NAME-API-Key" := "k1"]> ∅.
Proof.
  assert (Hnone : ∀ n, lookup_own (default [] (headerEnvVars descriptor))
                                  (envSpecificHeaderKey UAT) = Some (VarName n) →
                       env_set uat_env n = false) by (intros n; discriminate).
  assert (Hbefore : ∀ j n, j < 1 → ["NAME_API_KEY"; "API_KEY"] !! j = Some n →
                           env_set uat_env (n ++ ("_" ++ environment_name UAT))
                           = false).
  { intros [|j] n Hj Hn; [|lia]. by injection Hn as <-. }
  split; [reflexivity|]. split; [reflexivity|]. split; [reflexivity|].
  split; [reflexivity|].
  exact (proj1 (header_candidates_in_order uat_env UAT descriptor ∅
                  "NAME-API-Key" ["NAME_API_KEY"; "API_KEY"]
                  eq_refl (or_intror Hnone))
               1 "API_KEY" eq_refl eq_refl Hbefore).
Defined.

(** ** Unresolvable headers *)

Lemma resolve_names_unset (process_env : gmap string string)
      (E : EnvironmentType) (finalHeaderKey : string) (envVarName : EnvVarNames)
      (h : gmap string string) :
  Forall (fun name =>
            env_set process_env (name ++ "_" ++ environment_name E) = false
            ∧ env_set process_env name = false)
         (candidates envVarName) →
  resolve_names process_env E finalHeaderKey envVarName h = h.
Proof.
  intros Hunset. rewrite Forall_forall in Hunset. unfold resolve_names.
  destruct envVarName as [name|names]; simpl in Hunset.
  - destruct (Hunset name) as [-> ->]; [left|done].
  - rewrite first_set_miss by (intros n Hn; by destruct (Hunset n Hn)).
    rewrite first_set_miss; [done|].
    intros n Hn. rewrite append_empty. by destruct (Hunset n Hn).
Qed.

(** X11: when none of the variables that the entries of [headerEnvVars]
    name is set, neither as [<name>_<ENV>] nor as [<name>], and the literal
    headers hold no [NAME_API_KEY_<ENV>] entry, header resolution changes
    nothing, whatever else the environment holds: the resolved headers are
    the literal headers of the descriptor (an empty set of headers when it
    declares [headerEnvVars] but no [headers]). *)
Theorem unresolved_headers_keep_defaults (process_env : gmap string string)
        (E : EnvironmentType) (service : Service) :
  Forall (fun entry : string * EnvVarNames =>
            Forall (fun name =>
                      env_set process_env (name ++ "_" ++ environment_name E)
                      = false
                      ∧ env_set process_env name = false)
                   (candidates entry.2))
         (default [] (headerEnvVars service)) →
  truthy_string (headers service ≫= fun h => h !! envSpecificHeaderKey E) = false →
  resolveHeaders process_env E service
  = match headerEnvVars service with
    | Some _ => Some (default ∅ (headers service))
    | None => headers service
    end.
Proof.
  intros Hunset Hstatic. unfold resolveHeaders.
  destruct (headerEnvVars service) as [entries|] eqn:Hdeclared; [|done].
  f_equal. simpl in Hunset.
  assert (Hstep : ∀ entry,
            entry ∈ entries →
            resolveHeader process_env E service (default ∅ (headers service)) entry
            = default ∅ (headers service)).
  { intros [headerKey envVarName] Hentry. rewrite resolveHeader_plain.
    - apply resolve_names_unset.
      rewrite Forall_forall in Hunset. apply (Hunset _ Hentry).
    - unfold static_header. by destruct (headers service).
    - right. intros n Hn. rewrite Hdeclared in Hn. simpl in Hn.
      apply lookup_own_elem_of in Hn.
      rewrite Forall_forall in Hunset. pose proof (Hunset _ Hn) as Hnames.
      simpl in Hnames. by apply Forall_singleton in Hnames as [_ ?]. }
  clear Hdeclared Hunset.
  induction entries as [|entry entries IH]; cbn [fold_left]; [done|].
  rewrite Hstep by left. apply IH. intros e He. apply Hstep. by right.
Qed.

Lemma unresolved_headers_keep_defaults_witness :
  env_set uat_env "API_KEY_UAT" = true
  ∧ env_set uat_env ("AUTH_TOKEN" ++ "_" ++ environment_name UAT) = false
  ∧ env_set uat_env "AUTH_TOKEN" = false
  ∧ truthy_string (headers token_descriptor
                     ≫= fun h => h !! envSpecificHeaderKey UAT) = false
  ∧ resolveHeaders uat_env UAT token_descriptor
    = Some {[ "Accept" := "application/json" ]}.
Proof.
  split; [reflexivity|]. split; [reflexivity|]. split; [reflexivity|].
  split; [reflexivity|].
  refine (unresolved_headers_keep_defaults uat_env UAT token_descriptor _ eq_refl).
  repeat constructor.
Defined.

(** ** The URL rules after [environmentUrls] *)

(** X12: for a descriptor without a usable [environmentUrls] entry for the
    current environment the URL is decided in three steps.  A set
    [urlEnvVar] gives the complete URL.  Otherwise, when [baseUrl] or [path]
    is declared, the URL is built from them alone, a set [baseUrlEnvVar]
    replacing [baseUrl]: base and path joined when both are non-empty, else
    the one that is present.  Only when neither step applies is the literal
    [url] of the descriptor the result; in the first two steps the literal
    [url] is not read at all. *)
Theorem url_rules_after_environment_urls (process_env : gmap string string)
        (E : EnvironmentType) (service : Service) :
  truthy_string (environmentUrl E service) = false →
  let var_in_force :=
    truthy_string (urlEnvVar service)
    && env_set process_env (default "" (urlEnvVar service)) in
  let base_in_force :=
    truthy_string (baseUrlEnvVar service)
    && env_set process_env (default "" (baseUrlEnvVar service)) in
  let base :=
    if base_in_force
    then env_value process_env (default "" (baseUrlEnvVar service))
    else default "" (baseUrl service) in
  let declared := truthy_string (baseUrl service) || truthy_string (path service) in
  (var_in_force = true →
   resolveUrl process_env E service
   = Some (env_value process_env (default "" (urlEnvVar service))))
  ∧ (var_in_force = false → declared = true →
     resolveUrl process_env E service
     = Some (if String.eqb base "" then default "" (path service)
             else if truthy_string (path service)
                  then join_url base (default "" (path service))
                  else base))
  ∧ (var_in_force = false → declared = false →
     resolveUrl process_env E service = url service)
  ∧ (var_in_force = true ∨ declared = true →
     ∀ literal, resolveUrl process_env E (with_url service literal)
                = resolveUrl process_env E service).
Proof.
  intros Hurls var_in_force base_in_force base declared.
  assert (Hliteral : ∀ literal,
             truthy_string (environmentUrl E (with_url service literal)) = false)
    by (intros literal; exact Hurls).
  subst var_in_force base_in_force base declared. repeat split.
  - unfold resolveUrl. rewrite Hurls. by intros ->.
  - unfold resolveUrl. rewrite Hurls. intros -> Hdeclared. rewrite Hdeclared.
    destruct (truthy_string (baseUrlEnvVar service)
              && env_set process_env (default "" (baseUrlEnvVar service)))
      eqn:Hbase.
    + apply andb_true_iff in Hbase as [_ Hset].
      pose proof (env_set_value _ _ Hset) as Hvalue.
      rewrite Hvalue. simpl. by destruct (truthy_string (path service)).
    + destruct (baseUrl service) as [[|c b]|], (path service) as [[|d q]|];
        simpl in *; done.
  - unfold resolveUrl. rewrite Hurls. by intros -> ->.
  - intros Hused literal. unfold resolveUrl. rewrite Hliteral, Hurls. simpl.
    destruct (truthy_string (urlEnvVar service)
              && env_set process_env (default "" (urlEnvVar service)));
      [done|].
    destruct Hused as [?|Hdeclared]; [done|]. rewrite Hdeclared.
    destruct (truthy_string (baseUrlEnvVar service)
              && env_set process_env (default "" (baseUrlEnvVar service)))
      eqn:Hbase.
    + apply andb_true_iff in Hbase as [_ Hset].
      rewrite (env_set_value _ _ Hset). simpl.
      by destruct (truthy_string (path service)).
    + destruct (baseUrl service) as [[|c b]|], (path service) as [[|d q]|];
        simpl in *; done.
Qed.

Lemma url_rules_after_environment_urls_witness :
  truthy_string
    (environmentUrl UAT
       (with_urlEnvVar (with_base_path descriptor "https://a.com" "x")
                       (Some "SERVICE_URL"))) = false
  ∧ resolveUrl placeholder_env UAT
      (with_urlEnvVar (with_base_path descriptor "https://a.com" "x")
                      (Some "SERVICE_URL"))
    = Some "https://from-variable.example/api"
  ∧ resolveUrl uat_env UAT
      (with_url (with_urlEnvVar (with_base_path descriptor "https://a.com/" "/x")
                                (Some "SERVICE_URL"))
                (Some "https://literal.example"))
    = Some "https://a.com/x".
Proof.
  split; [reflexivity|]. split.
  - exact (proj1 (url_rules_after_environment_urls placeholder_env UAT
                    (with_urlEnvVar (with_base_path descriptor "https://a.com" "x")
                                    (Some "SERVICE_URL"))
                    eq_refl) eq_refl).
  - exact (proj1 (proj2 (url_rules_after_environment_urls uat_env UAT
                    (with_url
                       (with_urlEnvVar
                          (with_base_path descriptor "https://a.com/" "/x")
                          (Some "SERVICE_URL"))
                       (Some "https://literal.example"))
                    eq_refl)) eq_refl eq_refl).
Defined.

(** * Further properties of the check orchestrator *)

Lemma forEach_push {A B} (f : A → B) (l : list A) (pushed : list B) :
  fold_left (fun results x => (results ++ [f x])%list) l pushed
  = (pushed ++ map f l)%list.
Proof.
  revert pushed. induction l as [|x l IH]; intros pushed; simpl.
  - by rewrite app_nil_r.
  - by rewrite IH, <- app_assoc.
Qed.

Lemma checkRestServices_rows (axios : Service → Result AxiosResponse)
      (slug : string → string) (checked : list Service)
      (disabledServicesList : gmap string bool) :
  checkRestServices axios slug checked disabledServicesList
  = map (check_rest_service axios slug disabledServicesList) checked.
Proof. unfold checkRestServices. by rewrite forEach_push. Qed.

Lemma checkSoapServices_rows (JSON_stringify ToString : value → string)
      (soap_call : Service → Result value) (checked : list Service) :
  checkSoapServices JSON_stringify ToString soap_call checked
  = map (check_soap_service JSON_stringify ToString soap_call) checked.
Proof. unfold checkSoapServices. by rewrite forEach_push. Qed.

(** X13: the disabled-services list switches a REST service off when the
    truthiness of [disabledServicesList[serviceId]] is true: an own entry
    [true], or no own entry under an id that names a member of
    [Object.prototype] (such as [constructor] or [toString]).  The row of a
    REST service reports [success] exactly when the service is not switched
    off, it resolved to a non-empty URL, the request returned a response and
    that response passed validation.  A switched-off service is not called:
    whatever the transport would answer, its row is the [failed] row. *)
Theorem rest_row_success_iff (axios : Service → Result AxiosResponse)
        (slug : string → string) (disabledServicesList : gmap string bool)
        (service : Service) :
  let serviceId :=
    if negb (String.eqb (id service) "") then id service else slug (name service) in
  (result_status (check_rest_service axios slug disabledServicesList service)
   = success
   ↔ flag_set disabledServicesList serviceId = false
     ∧ truthy_string (url service) = true
     ∧ ∃ response, axios service = Ok response
                   ∧ validateRestResponse service (Some response) = Ok true)
  ∧ (flag_set disabledServicesList serviceId = true
     ↔ disabledServicesList !! serviceId = Some true
       ∨ (disabledServicesList !! serviceId = None
          ∧ serviceId ∈ Object_prototype_members))
  ∧ (flag_set disabledServicesList serviceId = true →
     ∀ transport : Service → Result AxiosResponse,
       check_rest_service transport slug disabledServicesList service
       = row service REST failed).
Proof.
  intros serviceId. split; [|split].
  - unfold check_rest_service, makeRestRequest. fold serviceId.
    destruct (flag_set disabledServicesList serviceId); simpl.
    + split; [|by intros [? _]].
      destruct (validateRestResponse service None) as [[|]|]; simpl; discriminate.
    + destruct (truthy_string (url service)); simpl;
        [|split; [discriminate | by intros (_ & ? & _)]].
      destruct (axios service) as [response|e]; simpl.
      * destruct (validateRestResponse service (Some response)) as [[|]|] eqn:Hv;
          simpl.
        -- split; [intros _; eauto 10 | done].
        -- split; [discriminate|]. intros (_ & _ & r & [= <-] & Hr). congruence.
        -- split; [discriminate|]. intros (_ & _ & r & [= <-] & Hr). congruence.
      * split; [discriminate|]. by intros (_ & _ & r & ? & _).
  - unfold flag_set.
    destruct (disabledServicesList !! serviceId) as [flag|].
    + split; [intros ->; by left|]. intros [[= ->]|[? _]]; done.
    + rewrite bool_decide_eq_true. split; [by right|]. by intros [?|[_ ?]].
  - intros Hoff transport. unfold check_rest_service. fold serviceId.
    rewrite Hoff. simpl.
    by destruct (validateRestResponse service None) as [[|]|].
Qed.

Lemma rest_row_success_iff_witness :
  flag_set ∅ "constructor" = true
  ∧ check_rest_service (fun _ => Ok {| status := 200; data := JNull |})
                       (fun name => name) ∅
                       (with_id (with_url descriptor (Some "https://a.com/health"))
                                "constructor")
    = row (with_id (with_url descriptor (Some "https://a.com/health"))
                   "constructor") REST failed.
Proof.
  split; [reflexivity|].
  exact (proj2 (proj2 (rest_row_success_iff
                         (fun _ => Ok {| status := 200; data := JNull |})
                         (fun name => name) ∅
                         (with_id (with_url descriptor
                                            (Some "https://a.com/health"))
                                  "constructor")))
               eq_refl
               (fun _ => Ok {| status := 200; data := JNull |})).
Defined.

(** X14: the row of a SOAP service reports [success] exactly when the
    service resolved to a non-empty URL, the call returned a response and
    that response passed validation; a call that throws, or a validation
    that throws (a [null] or [undefined] response), gives a [failed] row. *)
Theorem soap_row_success_iff (JSON_stringify ToString : value → string)
        (soap_call : Service → Result value) (service : Service) :
  result_status (check_soap_service JSON_stringify ToString soap_call service)
  = success
  ↔ truthy_string (url service) = true
    ∧ ∃ response,
        soap_call service = Ok response
        ∧ validateSoapResponse JSON_stringify ToString service response = Ok true.
Proof.
  unfold check_soap_service, makeSoapRequest.
  destruct (truthy_string (url service)); simpl;
    [|split; [discriminate | by intros [? _]]].
  destruct (soap_call service) as [response|e]; simpl.
  - destruct (validateSoapResponse _ _ service response) as [[|]|] eqn:Hv;
      simpl.
    + split; [intros _; eauto 10 | done].
    + split; [discriminate|]. intros (_ & r & [= <-] & Hr). congruence.
    + split; [discriminate|]. intros (_ & r & [= <-] & Hr). congruence.
  - split; [discriminate|]. by intros (_ & r & ? & _).
Qed.

Lemma check_rest_service_row (axios : Service → Result AxiosResponse)
      (slug : string → string) (disabledServicesList : gmap string bool)
      (service : Service) :
  ∃ s, check_rest_service axios slug disabledServicesList service
       = row service REST s.
Proof.
  unfold check_rest_service.
  destruct (flag_set disabledServicesList _); simpl.
  - destruct (validateRestResponse service None) as [[|]|]; simpl; eauto.
  - destruct (makeRestRequest axios service) as [response|e]; simpl; [|eauto].
    destruct (validateRestResponse service (Some response)) as [[|]|];
      simpl; eauto.
Qed.

Lemma check_soap_service_row (JSON_stringify ToString : value → string)
      (soap_call : Service → Result value) (service : Service) :
  ∃ s, check_soap_service JSON_stringify ToString soap_call service
       = row service SOAP s.
Proof.
  unfold check_soap_service.
  destruct (makeSoapRequest soap_call service) as [response|e]; simpl; [|eauto].
  destruct (validateSoapResponse _ _ service response) as [[|]|]; simpl; eauto.
Qed.

Lemma filter_by_type_length (config : list Service) :
  (List.length (List.filter (fun service => ServiceType_eqb (type service) REST)
                            config)
   + List.length (List.filter (fun service => ServiceType_eqb (type service) SOAP)
                              config))%nat
  = List.length config.
Proof.
  induction config as [|service config IH]; simpl; [done|].
  destruct (type service); simpl; lia.
Qed.

(** X15: a batch over the whole catalog never fails once the catalog has
    loaded: every resolved service yields exactly one row, whatever happens
    to its request; the rows of the REST services come first, in catalog
    order, followed by the rows of the SOAP services, in catalog order. *)
Theorem batch_has_one_row_per_service
        (process_env : gmap string string)
        (JSON_stringify ToString : value → string)
        (message_of : JsError → string)
        (catalog : list Service)
        (axios : Service → Result AxiosResponse)
        (soap_call : Service → Result value)
        (slug : string → string)
        (environment : option EnvironmentType)
        (disabledServicesList : gmap string bool) :
  let E := match environment with
           | Some e => e
           | None => default SIT (env_ENVIRONMENT process_env)
           end in
  let config := processEnvironmentVariables process_env catalog (Some E) in
  let rest := List.filter (fun service => ServiceType_eqb (type service) REST)
                          config in
  let soap := List.filter (fun service => ServiceType_eqb (type service) SOAP)
                          config in
  ∃ results,
    checkAllServices process_env JSON_stringify ToString message_of (Ok catalog)
                     axios soap_call slug None environment disabledServicesList
    = Ok results
    ∧ services results
      = (map (check_rest_service axios slug disabledServicesList) rest
         ++ map (check_soap_service JSON_stringify ToString soap_call) soap)%list
    ∧ map result_id (services results) = (map id rest ++ map id soap)%list
    ∧ total (summary results) = Z.of_nat (List.length config).
Proof.
  intros E config rest soap. unfold checkAllServices. simpl.
  fold E. fold config. fold rest. fold soap.
  eexists. split; [reflexivity|]. simpl.
  rewrite checkRestServices_rows, checkSoapServices_rows.
  assert (Hrows :
            (if (0 <? List.length soap)%nat
             then ((if (0 <? List.length rest)%nat
                    then map (check_rest_service axios slug disabledServicesList) rest
                    else [])
                   ++ map (check_soap_service JSON_stringify ToString soap_call) soap)%list
             else if (0 <? List.length rest)%nat
                  then map (check_rest_service axios slug disabledServicesList) rest
                  else [])
            = (map (check_rest_service axios slug disabledServicesList) rest
               ++ map (check_soap_service JSON_stringify ToString soap_call) soap)%list).
  { generalize rest soap. intros [|? ?] [|? ?]; simpl; by rewrite ?app_nil_r. }
  rewrite Hrows. split; [done|]. split.
  - rewrite map_app, !map_map. f_equal; apply map_ext; intros service.
    + by destruct (check_rest_service_row axios slug disabledServicesList service)
        as [s ->].
    + by destruct (check_soap_service_row JSON_stringify ToString soap_call service)
        as [s ->].
  - rewrite length_app, !length_map.
    subst rest soap. by rewrite filter_by_type_length.
Qed.

(** X16: a failure to load the catalog aborts the batch with an error that
    wraps the original message; a request for one service id fails with
    [Service with ID <id> not found] when no resolved descriptor of the
    current environment has that id; when some resolved descriptor has it,
    the request returns a result whose rows are those of the descriptors
    with that id, REST rows first: at least one row, each carrying the
    requested id. *)
Theorem single_service_and_load_errors
        (process_env : gmap string string)
        (JSON_stringify ToString : value → string)
        (message_of : JsError → string)
        (axios : Service → Result AxiosResponse)
        (soap_call : Service → Result value)
        (slug : string → string)
        (serviceId : string) (E : EnvironmentType)
        (disabledServicesList : gmap string bool) :
  serviceId ≠ "" →
  (∀ error requested,
     checkAllServices process_env JSON_stringify ToString message_of (Throw error)
                      axios soap_call slug requested (Some E) disabledServicesList
     = Throw (Error ("Failed to load service configuration: " ++ message_of error)))
  ∧ (∀ catalog,
       (∀ service,
          service ∈ processEnvironmentVariables process_env catalog (Some E) →
          id service ≠ serviceId) →
       checkAllServices process_env JSON_stringify ToString message_of (Ok catalog)
                        axios soap_call slug (Some serviceId) (Some E)
                        disabledServicesList
       = Throw (Error ("Service with ID " ++ serviceId ++ " not found")))
  ∧ (∀ catalog found,
       found ∈ processEnvironmentVariables process_env catalog (Some E) →
       id found = serviceId →
       ∃ results,
         checkAllServices process_env JSON_stringify ToString message_of
                          (Ok catalog) axios soap_call slug (Some serviceId)
                          (Some E) disabledServicesList
         = Ok results
         ∧ (let checked :=
              List.filter (fun service => String.eqb (id service) serviceId)
                          (processEnvironmentVariables process_env catalog
                                                       (Some E)) in
            services results
            = (map (check_rest_service axios slug disabledServicesList)
                   (List.filter
                      (fun service => ServiceType_eqb (type service) REST)
                      checked)
               ++ map (check_soap_service JSON_stringify ToString soap_call)
                      (List.filter
                         (fun service => ServiceType_eqb (type service) SOAP)
                         checked))%list)
         ∧ services results ≠ []
         ∧ ∀ r, r ∈ services results → result_id r = serviceId).
Proof.
  intros Hid. split; [done|]. split.
  - intros catalog Hunknown. unfold checkAllServices. simpl.
    rewrite (String_eqb_false _ _ Hid). simpl.
    set (config := processEnvironmentVariables process_env catalog (Some E)) in *.
    assert (Hnone : List.filter (fun service => String.eqb (id service) serviceId)
                                config = []).
    { induction config as [|service config IH]; simpl; [done|].
      rewrite (String_eqb_false (id service) serviceId) by (apply Hunknown; left).
      apply IH. intros s Hs. apply Hunknown. by right. }
    by rewrite Hnone.
  - intros catalog found Hfound Hsame. unfold checkAllServices. simpl.
    rewrite (String_eqb_false _ _ Hid). simpl.
    set (config := processEnvironmentVariables process_env catalog (Some E)) in *.
    set (checked := List.filter (fun service => String.eqb (id service) serviceId)
                                config).
    assert (Hin : found ∈ checked).
    { apply list_elem_of_In, filter_In. split; [by apply list_elem_of_In|].
      by apply String.eqb_eq. }
    assert (Hlen : (List.length checked =? 0)%nat = false).
    { apply Nat.eqb_neq. destruct checked; [by apply elem_of_nil in Hin|done]. }
    rewrite Hlen. eexists. split; [reflexivity|]. simpl.
    rewrite checkRestServices_rows, checkSoapServices_rows.
    set (rest := List.filter (fun service => ServiceType_eqb (type service) REST)
                             checked).
    set (soap := List.filter (fun service => ServiceType_eqb (type service) SOAP)
                             checked).
    assert (Hrows :
              (if (0 <? List.length soap)%nat
               then ((if (0 <? List.length rest)%nat
                      then map (check_rest_service axios slug disabledServicesList)
                               rest
                      else [])
                     ++ map (check_soap_service JSON_stringify ToString soap_call)
                            soap)%list
               else if (0 <? List.length rest)%nat
                    then map (check_rest_service axios slug disabledServicesList)
                             rest
                    else [])
              = (map (check_rest_service axios slug disabledServicesList) rest
                 ++ map (check_soap_service JSON_stringify ToString soap_call)
                        soap)%list).
    { generalize rest soap. intros [|? ?] [|? ?]; simpl; by rewrite ?app_nil_r. }
    rewrite Hrows. split; [done|]. split.
    + intros Hempty. apply (f_equal (@List.length _)) in Hempty.
      rewrite length_app, !length_map in Hempty. simpl in Hempty.
      pose proof (filter_by_type_length checked) as Hsum. fold rest soap in Hsum.
      apply Nat.eqb_neq in Hlen. lia.
    + assert (Hchecked : ∀ service, service ∈ checked → id service = serviceId).
      { intros service Hs. apply list_elem_of_In, filter_In in Hs as [_ Hs].
        by apply String.eqb_eq. }
      intros r Hr. apply elem_of_app in Hr as [Hr|Hr];
        apply list_elem_of_fmap in Hr as (service & -> & Hs).
      * destruct (check_rest_service_row axios slug disabledServicesList service)
          as [s ->]. simpl. apply Hchecked.
        by apply list_elem_of_In, filter_In in Hs as [Hs%list_elem_of_In _].
      * destruct (check_soap_service_row JSON_stringify ToString soap_call service)
          as [s ->]. simpl. apply Hchecked.
        by apply list_elem_of_In, filter_In in Hs as [Hs%list_elem_of_In _].
Qed.

Lemma single_service_and_load_errors_witness :
  "missing" ≠ "" ∧ "svc" ≠ ""
  ∧ checkAllServices ∅ (fun _ => "") (fun _ => "") (fun _ => "")
                     (Ok [with_base_path descriptor "https://a.com" "health"])
                     (fun _ => Ok {| status := 200; data := JNull |})
                     (fun _ => Ok JNull) (fun name => name)
                     (Some "missing") (Some UAT) ∅
    = Throw (Error "Service with ID missing not found")
  ∧ ∃ results,
      checkAllServices ∅ (fun _ => "") (fun _ => "") (fun _ => "")
                       (Ok [with_base_path descriptor "https://a.com" "health"])
                       (fun _ => Ok {| status := 200; data := JNull |})
                       (fun _ => Ok JNull) (fun name => name)
                       (Some "svc") (Some UAT) ∅
      = Ok results
      ∧ services results ≠ []
      ∧ ∀ r, r ∈ services results → result_id r = "svc".
Proof.
  split; [discriminate|]. split; [discriminate|]. split.
  - refine (proj1 (proj2 (single_service_and_load_errors
                            ∅ (fun _ => "") (fun _ => "") (fun _ => "")
                            (fun _ => Ok {| status := 200; data := JNull |})
                            (fun _ => Ok JNull) (fun name => name)
                            "missing" UAT ∅ ltac:(discriminate)))
                  [with_base_path descriptor "https://a.com" "health"] _).
    intros service Hin. apply list_elem_of_singleton in Hin as ->. discriminate.
  - destruct (proj2 (proj2 (single_service_and_load_errors
                              ∅ (fun _ => "") (fun _ => "") (fun _ => "")
                              (fun _ => Ok {| status := 200; data := JNull |})
                              (fun _ => Ok JNull) (fun name => name)
                              "svc" UAT ∅ ltac:(discriminate)))
                    [with_base_path descriptor "https://a.com" "health"]
                    (processService ∅ UAT
                       (with_base_path descriptor "https://a.com" "health"))
                    ltac:(apply list_elem_of_singleton; reflexivity) eq_refl)
      as (results & Hok & _ & Hrows & Hids).
    exists results. by repeat split.
Defined.

(** * Properties of the bulk document check *)

Lemma string_length_pos (s : string) :
  (0 <? String.length s)%nat = negb (String.eqb s "").
Proof. by destruct s. Qed.

Lemma checkIfResponseHasInformation_cases :
  (∀ entries,
     BulkDocumentCheck.checkIfResponseHasInformation (JObj entries)
     = Ok (negb (truthy (get entries "error")) && (0 <? List.length entries)%nat))
  ∧ (∀ items,
       BulkDocumentCheck.checkIfResponseHasInformation (JArr items)
       = Ok (0 <? List.length items)%nat)
  ∧ (∀ s,
       BulkDocumentCheck.checkIfResponseHasInformation (JStr s)
       = Ok (negb (String.eqb s "")))
  ∧ (∀ n, BulkDocumentCheck.checkIfResponseHasInformation (JNum n) = Ok false)
  ∧ (∀ b, BulkDocumentCheck.checkIfResponseHasInformation (JBool b) = Ok false)
  ∧ BulkDocumentCheck.checkIfResponseHasInformation JNull = Ok false
  ∧ BulkDocumentCheck.checkIfResponseHasInformation JUndefined = Ok false.
Proof.
  unfold BulkDocumentCheck.checkIfResponseHasInformation.
  split; [|split; [|split; [|split; [|split; [|split]]]]]; try done.
  - intros entries. simpl.
    destruct (truthy (get entries "error")); simpl; [done|].
    destruct (List.length entries) as [|n]; simpl; [done|].
    destruct (truthy (get entries "data")) eqn:Hdata; simpl.
    + by rewrite Hdata.
    + destruct (truthy (get entries "cliente")) eqn:Hcliente; simpl.
      * by rewrite Hcliente.
      * by destruct (truthy (get entries "informacion")).
  - intros [|item items]; simpl; done.
  - intros s. simpl. destruct (String.eqb s "") eqn:Hs; simpl; [done|].
    by rewrite string_length_pos, Hs.
  - intros n. simpl. by destruct (n =? 0)%Z.
  - by intros [].
Qed.

(** X17: [checkIfResponseHasInformation] never throws.  An object response
    has information exactly when it is not empty and its [error] property is
    not truthy (the properties [data], [cliente] and [informacion] never
    change the answer); an array or a string has information exactly when it
    is not empty; numbers, booleans, [null] and [undefined] have none. *)
Theorem response_information_spec :
  (∀ entries,
     BulkDocumentCheck.checkIfResponseHasInformation (JObj entries)
     = Ok (negb (truthy (get entries "error")) && (0 <? List.length entries)%nat))
  ∧ (∀ items,
       BulkDocumentCheck.checkIfResponseHasInformation (JArr items)
       = Ok (0 <? List.length items)%nat)
  ∧ (∀ s,
       BulkDocumentCheck.checkIfResponseHasInformation (JStr s)
       = Ok (negb (String.eqb s "")))
  ∧ (∀ n, BulkDocumentCheck.checkIfResponseHasInformation (JNum n) = Ok false)
  ∧ (∀ b, BulkDocumentCheck.checkIfResponseHasInformation (JBool b) = Ok false)
  ∧ BulkDocumentCheck.checkIfResponseHasInformation JNull = Ok false
  ∧ BulkDocumentCheck.checkIfResponseHasInformation JUndefined = Ok false.
Proof. exact checkIfResponseHasInformation_cases. Qed.

(** ** The summary of a bulk run *)

Lemma count_results_cons (p : BulkDocumentCheck.DocumentCheckResult → bool)
      (r : BulkDocumentCheck.DocumentCheckResult)
      (results : list BulkDocumentCheck.DocumentCheckResult) :
  count_results p (r :: results)
  = ((if p r then 1 else 0) + count_results p results)%Z.
Proof. unfold count_results. simpl. destruct (p r); simpl; lia. Qed.

Lemma forEach_counts (results : list BulkDocumentCheck.DocumentCheckResult)
      (acc : BulkDocumentCheck.DocumentCheckSummary) :
  let final := fold_left BulkDocumentCheck.count_result results acc in
  (BulkDocumentCheck.total final = BulkDocumentCheck.total acc
   ∧ BulkDocumentCheck.successful final
     = BulkDocumentCheck.successful acc + count_results is_success results
   ∧ BulkDocumentCheck.failed final
     = BulkDocumentCheck.failed acc
       + count_results (fun r => negb (is_success r)) results
   ∧ BulkDocumentCheck.withInformation final
     = BulkDocumentCheck.withInformation acc
       + count_results (fun r => is_success r && BulkDocumentCheck.hasInformation r)
                       results
   ∧ BulkDocumentCheck.withoutInformation final
     = BulkDocumentCheck.withoutInformation acc
       + count_results
           (fun r => is_success r && negb (BulkDocumentCheck.hasInformation r))
           results)%Z.
Proof.
  revert acc. induction results as [|r results IH]; intros acc; simpl.
  - unfold count_results. simpl. repeat split; lia.
  - destruct (IH (BulkDocumentCheck.count_result acc r)) as (Ht & Hs & Hf & Hw & Hwo).
    rewrite Ht, Hs, Hf, Hw, Hwo, !count_results_cons.
    unfold BulkDocumentCheck.count_result, is_success.
    destruct (Status_eqb (BulkDocumentCheck.status r) success); simpl;
      [destruct (BulkDocumentCheck.hasInformation r)|]; simpl; repeat split; lia.
Qed.

Lemma document_summary_counts_aux
      (results : list BulkDocumentCheck.DocumentCheckResult) :
  BulkDocumentCheck.failed (BulkDocumentCheck.generateDocumentCheckSummary results)
  = count_results (fun r => negb (is_success r)) results.
Proof.
  unfold BulkDocumentCheck.generateDocumentCheckSummary.
  match goal with
  | |- context [fold_left _ results ?acc] =>
      destruct (forEach_counts results acc) as (_ & _ & Hf & _)
  end.
  rewrite Hf. simpl. lia.
Qed.

(** X18: in the summary of any list of results, [total] is the number of
    results, [successful] the number of results with status [success],
    [failed] the number of all others, and the successful ones split into
    [withInformation] and [withoutInformation]; hence
    [successful + failed = total] and
    [withInformation + withoutInformation = successful]. *)
Theorem document_summary_counts
        (results : list BulkDocumentCheck.DocumentCheckResult) :
  let summary := BulkDocumentCheck.generateDocumentCheckSummary results in
  (BulkDocumentCheck.total summary = Z.of_nat (List.length results)
   ∧ BulkDocumentCheck.successful summary = count_results is_success results
   ∧ BulkDocumentCheck.failed summary
     = count_results (fun r => negb (is_success r)) results
   ∧ BulkDocumentCheck.withInformation summary
     = count_results (fun r => is_success r && BulkDocumentCheck.hasInformation r)
                     results
   ∧ BulkDocumentCheck.successful summary + BulkDocumentCheck.failed summary
     = BulkDocumentCheck.total summary
   ∧ BulkDocumentCheck.withInformation summary
     + BulkDocumentCheck.withoutInformation summary
     = BulkDocumentCheck.successful summary)%Z.
Proof.
  intros summary. subst summary. unfold BulkDocumentCheck.generateDocumentCheckSummary.
  match goal with
  | |- context [fold_left _ results ?acc] =>
      destruct (forEach_counts results acc) as (Ht & Hs & Hf & Hw & Hwo)
  end.
  rewrite Ht, Hs, Hf, Hw, Hwo. simpl.
  assert (Hsplit : ∀ l : list BulkDocumentCheck.DocumentCheckResult,
            (count_results is_success l
             + count_results (fun r => negb (is_success r)) l
             = Z.of_nat (List.length l)
             ∧ count_results (fun r => is_success r
                                       && BulkDocumentCheck.hasInformation r) l
               + count_results (fun r => is_success r
                                         && negb (BulkDocumentCheck.hasInformation r)) l
               = count_results is_success l)%Z).
  { induction l as [|r l [IH1 IH2]]; [done|].
    rewrite !count_results_cons. simpl List.length.
    destruct (is_success r), (BulkDocumentCheck.hasInformation r); simpl; lia. }
  destruct (Hsplit results) as [H1 H2]. repeat split; lia.
Qed.

Lemma set_add_elem_of (s : list string) (x m : string) :
  m ∈ BulkDocumentCheck.set_add s x ↔ m ∈ s ∨ m = x.
Proof.
  unfold BulkDocumentCheck.set_add. case_bool_decide as Hx.
  - split; [by left|]. intros [?| ->]; done.
  - rewrite elem_of_app, list_elem_of_singleton. done.
Qed.

Lemma set_add_NoDup (s : list string) (x : string) :
  NoDup s → NoDup (BulkDocumentCheck.set_add s x).
Proof.
  intros Hnd. unfold BulkDocumentCheck.set_add. case_bool_decide as Hx; [done|].
  apply NoDup_app. split; [done|]. split; [|apply NoDup_singleton].
  intros m Hm ->%list_elem_of_singleton. done.
Qed.

Lemma set_add_length (s : list string) (x : string) :
  (List.length (BulkDocumentCheck.set_add s x) ≤ S (List.length s))%nat.
Proof.
  unfold BulkDocumentCheck.set_add. case_bool_decide; [lia|].
  rewrite length_app. simpl. lia.
Qed.

Lemma forEach_errors (results : list BulkDocumentCheck.DocumentCheckResult)
      (acc : BulkDocumentCheck.DocumentCheckSummary) :
  let final := fold_left BulkDocumentCheck.count_result results acc in
  NoDup (BulkDocumentCheck.errorMessages acc) →
  NoDup (BulkDocumentCheck.errorMessages final)
  ∧ (∀ m, m ∈ BulkDocumentCheck.errorMessages final
          ↔ m ∈ BulkDocumentCheck.errorMessages acc
            ∨ ∃ r, r ∈ results
                   ∧ is_success r = false
                   ∧ BulkDocumentCheck.details r = m
                   ∧ startsWith m "Error:" = true)
  ∧ (Z.of_nat (List.length (BulkDocumentCheck.errorMessages final))
     ≤ Z.of_nat (List.length (BulkDocumentCheck.errorMessages acc))
       + count_results (fun r => negb (is_success r)) results)%Z.
Proof.
  revert acc. induction results as [|r results IH]; intros acc; simpl; intros Hnd.
  - split; [done|]. split.
    + intros m. split; [by left|]. intros [?|(r & Hr & _)]; [done|].
      by apply not_elem_of_nil in Hr.
    + unfold count_results. simpl. lia.
  - assert (Hstep :
      NoDup (BulkDocumentCheck.errorMessages (BulkDocumentCheck.count_result acc r))
      ∧ (∀ m, m ∈ BulkDocumentCheck.errorMessages
                    (BulkDocumentCheck.count_result acc r)
              ↔ m ∈ BulkDocumentCheck.errorMessages acc
                ∨ (is_success r = false ∧ BulkDocumentCheck.details r = m
                   ∧ startsWith m "Error:" = true))
      ∧ (List.length (BulkDocumentCheck.errorMessages
                        (BulkDocumentCheck.count_result acc r))
         ≤ List.length (BulkDocumentCheck.errorMessages acc)
           + (if negb (is_success r) then 1 else 0))%nat).
    { unfold BulkDocumentCheck.count_result, is_success.
      destruct (Status_eqb (BulkDocumentCheck.status r) success); simpl.
      - split; [done|]. split; [|lia]. intros m. split; [by left|].
        by intros [?|[? _]].
      - destruct (String.eqb (BulkDocumentCheck.details r) "") eqn:Hempty; simpl.
        + apply String.eqb_eq in Hempty. split; [done|]. split; [|lia].
          intros m. split; [by left|]. intros [?|(_ & <- & Hstarts)]; [done|].
          by rewrite Hempty in Hstarts.
        + destruct (startsWith (BulkDocumentCheck.details r) "Error:") eqn:Hstarts.
          * split; [by apply set_add_NoDup|]. split.
            -- intros m. rewrite set_add_elem_of. split.
               ++ intros [?| ->]; [by left | by right].
               ++ intros [?|(_ & <- & _)]; [by left | by right].
            -- pose proof (set_add_length (BulkDocumentCheck.errorMessages acc)
                             (BulkDocumentCheck.details r)). lia.
          * split; [done|]. split; [|lia]. intros m. split; [by left|].
            intros [?|(_ & <- & Hm)]; [done | congruence]. }
    destruct Hstep as (Hnd' & Hmem & Hlen).
    destruct (IH _ Hnd') as (Hnd'' & Hmem' & Hlen').
    split; [done|]. split.
    + intros m. rewrite Hmem', Hmem. split.
      * intros [[?|(? & ? & ?)]|(r' & Hr' & ?)]; [by left| |].
        -- right. exists r. split; [left|done].
        -- right. exists r'. split; [by right|done].
      * intros [?|(r' & Hr' & Hf & Hd & Hs)]; [by left; left|].
        apply elem_of_cons in Hr' as [->|Hr'].
        -- left. right. done.
        -- right. exists r'. done.
    + rewrite count_results_cons. destruct (negb (is_success r)); lia.
Qed.

(** X19: the [errorMessages] of a summary list, without repetition, exactly
    the [details] texts beginning with [Error:] of the results that are not
    successful; there are at most as many of them as failed results. *)
Theorem document_summary_error_messages
        (results : list BulkDocumentCheck.DocumentCheckResult) :
  let summary := BulkDocumentCheck.generateDocumentCheckSummary results in
  NoDup (BulkDocumentCheck.errorMessages summary)
  ∧ (∀ m, m ∈ BulkDocumentCheck.errorMessages summary
          ↔ ∃ r, r ∈ results
                 ∧ is_success r = false
                 ∧ BulkDocumentCheck.details r = m
                 ∧ startsWith m "Error:" = true)
  ∧ (Z.of_nat (List.length (BulkDocumentCheck.errorMessages summary))
     ≤ BulkDocumentCheck.failed summary)%Z.
Proof.
  intros summary.
  pose proof (document_summary_counts_aux results) as Hfailed.
  subst summary. unfold BulkDocumentCheck.generateDocumentCheckSummary in *.
  match goal with
  | |- context [fold_left _ results ?acc] =>
      destruct (forEach_errors results acc) as (Hnd & Hmem & Hlen);
        [apply NoDup_nil_2|]
  end.
  split; [done|]. split.
  - intros m. rewrite Hmem. simpl. split; [|by right].
    intros [Hm|?]; [|done]. by apply not_elem_of_nil in Hm.
  - simpl in Hlen. rewrite Hfailed. lia.
Qed.

Lemma count_results_nonneg (p : BulkDocumentCheck.DocumentCheckResult → bool)
      (results : list BulkDocumentCheck.DocumentCheckResult) :
  (0 ≤ count_results p results)%Z.
Proof. unfold count_results. lia. Qed.

Lemma count_result_distribution (acc : BulkDocumentCheck.DocumentCheckSummary)
      (r : BulkDocumentCheck.DocumentCheckResult) (code : Z) :
  BulkDocumentCheck.statusCodeDistribution (BulkDocumentCheck.count_result acc r)
    !! code
  = if has_code code r
    then Some (default 0%Z (BulkDocumentCheck.statusCodeDistribution acc !! code) + 1)%Z
    else BulkDocumentCheck.statusCodeDistribution acc !! code.
Proof.
  unfold BulkDocumentCheck.count_result, has_code, is_success.
  destruct (Status_eqb (BulkDocumentCheck.status r) success); simpl; [|done].
  destruct (BulkDocumentCheck.statusCode r) as [c|] eqn:Hc; simpl.
  - destruct (c =? 0)%Z eqn:Hzero; simpl.
    + case_bool_decide as Heq; simpl; [|done].
      assert (code = c) as -> by congruence. by rewrite Hzero.
    + case_bool_decide as Heq; simpl.
      * assert (code = c) as -> by congruence.
        by rewrite Hzero, lookup_insert_eq.
      * rewrite lookup_insert_ne; [done | congruence].
  - try case_bool_decide; done.
Qed.

Lemma forEach_distribution (results : list BulkDocumentCheck.DocumentCheckResult)
      (acc : BulkDocumentCheck.DocumentCheckSummary) (code : Z) :
  BulkDocumentCheck.statusCodeDistribution
    (fold_left BulkDocumentCheck.count_result results acc) !! code
  = if (count_results (has_code code) results =? 0)%Z
    then BulkDocumentCheck.statusCodeDistribution acc !! code
    else Some (default 0%Z (BulkDocumentCheck.statusCodeDistribution acc !! code)
               + count_results (has_code code) results)%Z.
Proof.
  revert acc. induction results as [|r results IH]; intros acc; simpl; [done|].
  rewrite IH, count_result_distribution, count_results_cons.
  pose proof (count_results_nonneg (has_code code) results) as Hpos.
  destruct (has_code code r); simpl.
  - destruct (count_results (has_code code) results =? 0)%Z eqn:Hrest.
    + apply Z.eqb_eq in Hrest. rewrite Hrest. simpl.
      first [done | f_equal; lia].
    + destruct (1 + count_results (has_code code) results =? 0)%Z eqn:Hall.
      * apply Z.eqb_eq in Hall. lia.
      * simpl. f_equal. lia.
  - by rewrite Z.add_0_l.
Qed.

(** X20: [statusCodeDistribution] records, for every non-zero status code
    carried by at least one successful result, the number of successful
    results with that code; no other code is recorded, so every recorded
    count is positive. *)
Theorem document_summary_status_codes
        (results : list BulkDocumentCheck.DocumentCheckResult) (code : Z) :
  BulkDocumentCheck.statusCodeDistribution
    (BulkDocumentCheck.generateDocumentCheckSummary results) !! code
  = if (count_results (has_code code) results =? 0)%Z then None
    else Some (count_results (has_code code) results).
Proof.
  unfold BulkDocumentCheck.generateDocumentCheckSummary.
  rewrite forEach_distribution. simpl. rewrite lookup_empty. simpl.
  by destruct (_ =? 0)%Z.
Qed.

(** ** The rows of a bulk run *)

Lemma checkIfResponseHasInformation_total (v : value) :
  ∃ b, BulkDocumentCheck.checkIfResponseHasInformation v = Ok b.
Proof.
  destruct checkIfResponseHasInformation_cases
    as (Hobj & Harr & Hstr & Hnum & Hbool & Hnull & Hundef).
  destruct v; eauto.
Qed.

(** X21: a bulk run returns one row per loaded document, in order, and
    fails only when loading the documents fails.  The row of a document has
    status [success] exactly when its request returned a response, whatever
    the HTTP status of that response; when the request throws, the row is
    [failed], carries no information, and its [details] begin with
    [Error:]. *)
Theorem bulk_run_rows
        (process_env : gmap string string)
        (toString_method : value → Result string)
        (excel_rows : Result (list value)) (json_content : Result value)
        (axios_get : string → gmap string string → BulkDocumentCheck.DocumentData
                     → Result AxiosResponse)
        (elapsed : BulkDocumentCheck.DocumentData → Z)
        (message_of : JsError → string)
        (fileType : BulkDocumentCheck.FileType)
        (customHeaders : option (gmap string string)) :
  let check :=
    BulkDocumentCheck.check_one_document process_env axios_get elapsed message_of
                                         customHeaders in
  BulkDocumentCheck.processBulkDocumentCheck
    process_env toString_method excel_rows json_content axios_get elapsed
    message_of fileType customHeaders
  = match BulkDocumentCheck.loadDocumentsFromFile toString_method excel_rows
            json_content fileType with
    | Ok documents => Ok (map check documents)
    | Throw error => Throw error
    end
  ∧ ∀ doc,
      BulkDocumentCheck.document (check doc) = doc
      ∧ (BulkDocumentCheck.status (check doc) = success
         ↔ ∃ response,
             axios_get (BulkDocumentCheck.checkDocument_url process_env)
                       (BulkDocumentCheck.checkDocument_headers process_env
                                                                customHeaders)
                       doc
             = Ok response)
      ∧ (BulkDocumentCheck.status (check doc) = failed
         ↔ BulkDocumentCheck.hasInformation (check doc) = false
           ∧ startsWith (BulkDocumentCheck.details (check doc)) "Error:" = true).
Proof.
  intros check. split.
  - unfold BulkDocumentCheck.processBulkDocumentCheck.
    destruct (BulkDocumentCheck.loadDocumentsFromFile _ _ _ _)
      as [documents|error]; simpl; [|done].
    by rewrite forEach_push.
  - intros doc. subst check.
    unfold BulkDocumentCheck.check_one_document, BulkDocumentCheck.checkDocument.
    destruct (axios_get _ _ doc) as [response|error]; simpl.
    + destruct (checkIfResponseHasInformation_total
                  (BulkDocumentCheck.response_data response)) as [b ->]. simpl.
      split; [done|]. split; [split; eauto|].
      split; [discriminate|]. intros [_ Hstarts]. by destruct b.
    + split; [done|]. split; [split; [discriminate | by intros [? ?]]|].
      done.
Qed.

(** ** Loading the documents *)

Lemma map_r_throw {A B} (f : A → Result B) (l : list A) (x : A) (e : JsError) :
  x ∈ l → f x = Throw e → ∃ e', BulkDocumentCheck.map_r f l = Throw e'.
Proof.
  induction l as [|y l IH]; intros Hin Hx.
  - by apply not_elem_of_nil in Hin.
  - simpl. apply elem_of_cons in Hin as [<-|Hin].
    + rewrite Hx. simpl. eauto.
    + destruct (f y); simpl; [|eauto].
      destruct (IH Hin Hx) as [e' ->]. simpl. eauto.
Qed.

Lemma complete_spec (doc : BulkDocumentCheck.DocumentData) :
  BulkDocumentCheck.complete doc = true
  ↔ BulkDocumentCheck.tipoDocumento doc ≠ ""
    ∧ BulkDocumentCheck.numDocumento doc ≠ ""
    ∧ BulkDocumentCheck.primerApellido doc ≠ "".
Proof.
  unfold BulkDocumentCheck.complete.
  rewrite !andb_true_iff, !negb_true_iff, !String.eqb_neq. tauto.
Qed.

(** X22: every document returned by [loadDocumentsFromFile], from either
    kind of file, has its three fields non-empty; a JSON file whose content
    is not an array is refused with an error, and a [null] entry in the
    array makes the whole load fail. *)
Theorem loaded_documents_are_complete
        (toString_method : value → Result string)
        (excel_rows : Result (list value)) (json_content : Result value) :
  (∀ fileType documents doc,
     BulkDocumentCheck.loadDocumentsFromFile toString_method excel_rows
                                             json_content fileType
     = Ok documents →
     doc ∈ documents →
     BulkDocumentCheck.tipoDocumento doc ≠ ""
     ∧ BulkDocumentCheck.numDocumento doc ≠ ""
     ∧ BulkDocumentCheck.primerApellido doc ≠ "")
  ∧ (∀ content,
       json_content = Ok content → isArray content = false →
       BulkDocumentCheck.loadDocumentsFromFile toString_method excel_rows
                                               json_content BulkDocumentCheck.json
       = Throw (Error "El archivo JSON no contiene un array de documentos"))
  ∧ (∀ items,
       json_content = Ok (JArr items) → JNull ∈ items →
       ∃ error,
         BulkDocumentCheck.loadDocumentsFromFile toString_method excel_rows
                                                 json_content BulkDocumentCheck.json
         = Throw error).
Proof.
  split; [|split].
  - intros fileType documents doc Hload Hdoc.
    apply complete_spec.
    unfold BulkDocumentCheck.loadDocumentsFromFile in Hload.
    destruct fileType.
    + destruct excel_rows as [rows|]; simpl in Hload; [|discriminate].
      destruct (BulkDocumentCheck.map_r _ rows) as [docs|]; simpl in Hload;
        [|discriminate].
      injection Hload as <-.
      by apply list_elem_of_In, filter_In in Hdoc as [_ ?].
    + destruct json_content as [[| | | | |items|]|]; simpl in Hload;
        try discriminate.
      destruct (BulkDocumentCheck.map_r _ items) as [docs|]; simpl in Hload;
        [|discriminate].
      injection Hload as <-.
      by apply list_elem_of_In, filter_In in Hdoc as [_ ?].
  - intros content -> Harray. unfold BulkDocumentCheck.loadDocumentsFromFile.
    simpl. by destruct content.
  - intros items -> Hnull. unfold BulkDocumentCheck.loadDocumentsFromFile. simpl.
    destruct (map_r_throw (BulkDocumentCheck.to_document toString_method)
                          items JNull TypeError Hnull eq_refl) as [e ->].
    simpl. eauto.
Qed.

Lemma loaded_documents_are_complete_witness :
  BulkDocumentCheck.loadDocumentsFromFile
    (fun _ => Ok "1") (Ok []) (Ok sample_documents) BulkDocumentCheck.json
  = Ok [sample_document]
  ∧ sample_document ∈ [sample_document]
  ∧ BulkDocumentCheck.tipoDocumento sample_document ≠ ""
  ∧ BulkDocumentCheck.numDocumento sample_document ≠ ""
  ∧ BulkDocumentCheck.primerApellido sample_document ≠ "".
Proof.
  assert (Hin : sample_document ∈ [sample_document]) by left.
  split; [reflexivity|]. split; [exact Hin|].
  exact (proj1 (loaded_documents_are_complete
                  (fun _ => Ok "1") (Ok []) (Ok sample_documents))
               BulkDocumentCheck.json [sample_document] sample_document
               eq_refl Hin).
Defined.
